(** * The vault contract (contracts/vault/vault.py)

    A shallow embedding of the PyTeal approval and clear-state programs of
    the vault, and the properties of its handlers.

    The PyTeal combinators used by the contract are given their meaning
    first (modules [Txn], [Global], [App], [AssetHolding],
    [InnerTxnBuilder], and the control operators [Seq], [Assert], [Cond],
    [Approve], [Reject], [Err]); the contract itself is then transcribed
    handler by handler under the names it has in the source. *)

From stdpp Require Import gmap strings list.
From Stdlib Require Import ZArith Lia.

Local Open Scope Z_scope.

(** ** Values and the transaction being evaluated *)

(** Addresses and byte strings are strings of 8-bit characters. *)
Abbreviation address := string.

(** A stack value is an unsigned 64-bit integer or a byte string. *)
Inductive TealValue :=
| Uint (n : Z)
| Bytes (b : string).

#[global] Instance TealValue_eq_dec : EqDecision TealValue.
Proof. solve_decision. Defined.

Definition uint64_max : Z := 18446744073709551615.

Definition uint64 (n : Z) : Prop := 0 <= n <= uint64_max.

(** Transaction types and on-completion actions, with their numeric codes. *)
Inductive txn_type := pay | keyreg | acfg | axfer | afrz | appl.

#[global] Instance txn_type_eq_dec : EqDecision txn_type.
Proof. solve_decision. Defined.

Definition type_code (t : txn_type) : Z :=
  match t with
  | pay => 1 | keyreg => 2 | acfg => 3 | axfer => 4 | afrz => 5 | appl => 6
  end.

Inductive on_complete :=
| NoOpOC | OptInOC | CloseOutOC | ClearStateOC
| UpdateApplicationOC | DeleteApplicationOC.

#[global] Instance on_complete_eq_dec : EqDecision on_complete.
Proof. solve_decision. Defined.

Definition oc_code (o : on_complete) : Z :=
  match o with
  | NoOpOC => 0 | OptInOC => 1 | CloseOutOC => 2 | ClearStateOC => 3
  | UpdateApplicationOC => 4 | DeleteApplicationOC => 5
  end.

(** The fields of the current transaction that the contract reads. *)
Record Transaction := {
  tx_type_enum : txn_type;
  tx_sender : address;
  tx_fee : Z;
  tx_rekey_to : address;
  tx_group_index : Z;
  tx_assets : list Z;
  tx_application_args : list string;
  tx_application_id : Z;
  tx_on_completion : on_complete;
  tx_asset_receiver : address;
  tx_xfer_asset : Z;
  tx_asset_amount : Z;
  tx_asset_close_to : address;
}.

(** What an account holds of an asset it has opted into. *)
Record Holding := { h_amount : Z; h_frozen : bool }.

(** The ledger as a call finds it: the [Global] fields, the asset holdings
    of accounts ([None]: the account has not opted into the asset) and the
    assets that exist, each with the frozen flag a new holding of it
    starts with. *)
Record Ledger := {
  g_group_size : Z;
  g_min_txn_fee : Z;
  g_latest_timestamp : Z;
  g_current_application_id : Z;
  g_current_application_address : address;
  g_holdings : address -> gmap Z Holding;
  g_assets : gmap Z bool;
}.

Record Ctx := { ctx_ledger : Ledger; ctx_txn : Transaction }.

(** The 32 zero bytes. *)
Definition zero_address : address :=
  String.string_of_list_ascii (repeat Ascii.zero 32).

Arguments zero_address : simpl never.

(** ** Application state and the machine *)

(** Global key-value store of the application, and one local key-value
    store per opted-in account. *)
Record AppState := {
  app_global : gmap string TealValue;
  app_local : gmap address (gmap string TealValue);
}.

(** An inner transaction under construction or submitted. *)
Record InnerTxn := {
  itxn_sender : address;
  itxn_type_enum : Z;
  itxn_asset_receiver : address;
  itxn_asset_amount : Z;
  itxn_fee : Z;
  itxn_xfer_asset : Z;
}.

(** The machine: the application state and the asset holdings as the
    program has changed them so far, the scratch space, the inner
    transaction under construction and the inner transactions submitted. *)
Record Machine := {
  m_app : AppState;
  m_scratch : gmap nat TealValue;
  m_pending : option InnerTxn;
  m_submitted : list InnerTxn;
  m_holdings : address -> gmap Z Holding;
}.

Definition set_app (a : AppState) (m : Machine) : Machine :=
  {| m_app := a; m_scratch := m_scratch m;
     m_pending := m_pending m; m_submitted := m_submitted m;
     m_holdings := m_holdings m |}.

Definition set_scratch (sc : gmap nat TealValue) (m : Machine) : Machine :=
  {| m_app := m_app m; m_scratch := sc;
     m_pending := m_pending m; m_submitted := m_submitted m;
     m_holdings := m_holdings m |}.

Definition set_pending (p : option InnerTxn) (m : Machine) : Machine :=
  {| m_app := m_app m; m_scratch := m_scratch m;
     m_pending := p; m_submitted := m_submitted m;
     m_holdings := m_holdings m |}.

(** An expression reads the context and the machine and yields a value, or
    fails (bad index, overflow, operand of the wrong type). *)
Definition Expr := Ctx -> Machine -> option TealValue.

(** A statement continues with a new machine, leaves the program with a
    return value, or fails. *)
Inductive Outcome :=
| Next (m : Machine)
| Exit (v : Z) (m : Machine)
| Panic.

Definition Stmt := Ctx -> Machine -> Outcome.

Definition as_uint (v : TealValue) : option Z :=
  match v with Uint n => Some n | Bytes _ => None end.

Definition as_bytes (v : TealValue) : option string :=
  match v with Bytes b => Some b | Uint _ => None end.

Definition eval_uint (e : Expr) (c : Ctx) (m : Machine) : option Z :=
  e c m ≫= as_uint.

Definition eval_bytes (e : Expr) (c : Ctx) (m : Machine) : option string :=
  e c m ≫= as_bytes.

Definition bool_to_Z (b : bool) : Z := if b then 1 else 0.

(** ** Expressions *)

Definition Int (n : Z) : Expr := fun _ _ => Some (Uint n).

Definition BytesE (s : string) : Expr := fun _ _ => Some (Bytes s).

(** [==] compares two values of the same type. *)
Definition teal_eq (v w : TealValue) : option TealValue :=
  match v, w with
  | Uint a, Uint b => Some (Uint (bool_to_Z (a =? b)))
  | Bytes a, Bytes b => Some (Uint (bool_to_Z (String.eqb a b)))
  | _, _ => None
  end.

Definition Eq_ (a b : Expr) : Expr := fun c m =>
  v ← a c m; w ← b c m; teal_eq v w.

Definition Gt_ (a b : Expr) : Expr := fun c m =>
  x ← eval_uint a c m; y ← eval_uint b c m; Some (Uint (bool_to_Z (y <? x))).

Definition Ge_ (a b : Expr) : Expr := fun c m =>
  x ← eval_uint a c m; y ← eval_uint b c m; Some (Uint (bool_to_Z (y <=? x))).

Definition Le_ (a b : Expr) : Expr := fun c m =>
  x ← eval_uint a c m; y ← eval_uint b c m; Some (Uint (bool_to_Z (x <=? y))).

(** [+] and [*] fail when the result does not fit 64 bits, [-] when the
    result would be negative. *)
Definition Add_ (a b : Expr) : Expr := fun c m =>
  x ← eval_uint a c m; y ← eval_uint b c m;
  if x + y <=? uint64_max then Some (Uint (x + y)) else None.

Definition Minus_ (a b : Expr) : Expr := fun c m =>
  x ← eval_uint a c m; y ← eval_uint b c m;
  if y <=? x then Some (Uint (x - y)) else None.

Definition Mul_ (a b : Expr) : Expr := fun c m =>
  x ← eval_uint a c m; y ← eval_uint b c m;
  if x * y <=? uint64_max then Some (Uint (x * y)) else None.

(** Big-endian value of a byte string. *)
Fixpoint be_value (acc : Z) (s : string) : Z :=
  match s with
  | EmptyString => acc
  | String a s' => be_value (acc * 256 + Z.of_nat (Ascii.nat_of_ascii a)) s'
  end.

(** [Btoi] fails on more than 8 bytes. *)
Definition btoi (s : string) : option Z :=
  if (String.length s <=? 8)%nat then Some (be_value 0 s) else None.

Definition Btoi (a : Expr) : Expr := fun c m =>
  s ← eval_bytes a c m; n ← btoi s; Some (Uint n).

(** [And] evaluates every argument, in order, and joins them with [&&]:
    the result is 1 when all are non-zero. *)
Fixpoint and_all (l : list Expr) (c : Ctx) (m : Machine) : option bool :=
  match l with
  | [] => Some true
  | e :: l' =>
      x ← eval_uint e c m; r ← and_all l' c m;
      Some (negb (x =? 0) && r)
  end.

Definition And (l : list Expr) : Expr := fun c m =>
  r ← and_all l c m; Some (Uint (bool_to_Z r)).

Declare Scope teal_scope.
Delimit Scope teal_scope with teal.
Bind Scope teal_scope with Expr.
Notation "a == b" := (Eq_ a b) (at level 70, no associativity) : teal_scope.
Notation "a > b" := (Gt_ a b) : teal_scope.
Notation "a >= b" := (Ge_ a b) : teal_scope.
Notation "a <= b" := (Le_ a b) : teal_scope.
Notation "a + b" := (Add_ a b) : teal_scope.
Notation "a - b" := (Minus_ a b) : teal_scope.
Notation "a * b" := (Mul_ a b) : teal_scope.

Module TxnType.
Definition Payment : Expr := Int (type_code pay).
Definition AssetTransfer : Expr := Int (type_code axfer).
Definition ApplicationCall : Expr := Int (type_code appl).
End TxnType.

Module OnComplete.
Definition NoOp : Expr := Int (oc_code NoOpOC).
Definition OptIn : Expr := Int (oc_code OptInOC).
Definition CloseOut : Expr := Int (oc_code CloseOutOC).
Definition ClearState : Expr := Int (oc_code ClearStateOC).
Definition UpdateApplication : Expr := Int (oc_code UpdateApplicationOC).
Definition DeleteApplication : Expr := Int (oc_code DeleteApplicationOC).
End OnComplete.

Module Txn.
Definition type_enum : Expr := fun c _ =>
  Some (Uint (type_code (tx_type_enum (ctx_txn c)))).
Definition sender : Expr := fun c _ => Some (Bytes (tx_sender (ctx_txn c))).
Definition fee : Expr := fun c _ => Some (Uint (tx_fee (ctx_txn c))).
Definition rekey_to : Expr := fun c _ =>
  Some (Bytes (tx_rekey_to (ctx_txn c))).
Definition group_index : Expr := fun c _ =>
  Some (Uint (tx_group_index (ctx_txn c))).
Definition application_id : Expr := fun c _ =>
  Some (Uint (tx_application_id (ctx_txn c))).
Definition on_completion : Expr := fun c _ =>
  Some (Uint (oc_code (tx_on_completion (ctx_txn c)))).
Definition asset_receiver : Expr := fun c _ =>
  Some (Bytes (tx_asset_receiver (ctx_txn c))).
Definition xfer_asset : Expr := fun c _ =>
  Some (Uint (tx_xfer_asset (ctx_txn c))).
Definition asset_amount : Expr := fun c _ =>
  Some (Uint (tx_asset_amount (ctx_txn c))).
Definition asset_close_to : Expr := fun c _ =>
  Some (Bytes (tx_asset_close_to (ctx_txn c))).

(** [Txn.assets.length()] and [Txn.assets[i]]; indexing past the end
    fails. *)
Definition assets_length : Expr := fun c _ =>
  Some (Uint (Z.of_nat (length (tx_assets (ctx_txn c))))).
Definition assets (i : nat) : Expr := fun c _ =>
  Uint <$> tx_assets (ctx_txn c) !! i.

(** [Txn.application_args.length()] and [Txn.application_args[i]]. *)
Definition application_args_length : Expr := fun c _ =>
  Some (Uint (Z.of_nat (length (tx_application_args (ctx_txn c))))).
Definition application_args (i : nat) : Expr := fun c _ =>
  Bytes <$> tx_application_args (ctx_txn c) !! i.
End Txn.

Module Global.
Definition group_size : Expr := fun c _ =>
  Some (Uint (g_group_size (ctx_ledger c))).
Definition min_txn_fee : Expr := fun c _ =>
  Some (Uint (g_min_txn_fee (ctx_ledger c))).
Definition latest_timestamp : Expr := fun c _ =>
  Some (Uint (g_latest_timestamp (ctx_ledger c))).
Definition current_application_id : Expr := fun c _ =>
  Some (Uint (g_current_application_id (ctx_ledger c))).
Definition current_application_address : Expr := fun c _ =>
  Some (Bytes (g_current_application_address (ctx_ledger c))).
Definition zero_address : Expr := fun _ _ => Some (Bytes zero_address).
End Global.

(** Scratch slots: [ScratchVar.store], [ScratchVar.load]. An unwritten slot
    reads as 0. *)
Module ScratchVar.
Definition store (slot : nat) (e : Expr) : Stmt := fun c m =>
  match e c m with
  | Some v => Next (set_scratch (<[slot := v]> (m_scratch m)) m)
  | None => Panic
  end.
Definition load (slot : nat) : Expr := fun _ m =>
  Some (default (Uint 0) (m_scratch m !! slot)).
End ScratchVar.

(** Application state access. Reading a missing key gives 0. The local
    store of an account exists exactly when the account is opted in: the
    ledger allocates it, empty, when the account opts in; reading or
    writing the local store of an account that is not opted in fails. The
    ledger also bounds the number and the size of the stored keys and
    values by the schema the application was created with; the schema is
    not part of the source and is taken to be large enough. *)
Definition global_get (s : AppState) (k : string) : TealValue :=
  default (Uint 0) (app_global s !! k).

Definition global_put (s : AppState) (k : string) (v : TealValue) : AppState :=
  {| app_global := <[k := v]> (app_global s); app_local := app_local s |}.

Definition local_get (s : AppState) (a : address) (k : string)
  : option TealValue :=
  store ← app_local s !! a; Some (default (Uint 0) (store !! k)).

Definition local_put (s : AppState) (a : address) (k : string) (v : TealValue)
  : AppState :=
  {| app_global := app_global s;
     app_local := <[a := <[k := v]> (default ∅ (app_local s !! a))]>
                    (app_local s) |}.

Definition opted_in (s : AppState) (a : address) : Prop :=
  is_Some (app_local s !! a).

Module App.
Definition optedIn (account app : Expr) : Expr := fun c m =>
  a ← eval_bytes account c m; i ← eval_uint app c m;
  Some (Uint (bool_to_Z
    ((i =? g_current_application_id (ctx_ledger c))
     && bool_decide (opted_in (m_app m) a)))).

Definition globalGet (key : Expr) : Expr := fun c m =>
  k ← eval_bytes key c m; Some (global_get (m_app m) k).

Definition globalPut (key value : Expr) : Stmt := fun c m =>
  match eval_bytes key c m, value c m with
  | Some k, Some v => Next (set_app (global_put (m_app m) k v) m)
  | _, _ => Panic
  end.

Definition localGet (account key : Expr) : Expr := fun c m =>
  a ← eval_bytes account c m; k ← eval_bytes key c m;
  local_get (m_app m) a k.

Definition localPut (account key value : Expr) : Stmt := fun c m =>
  match eval_bytes account c m, eval_bytes key c m, value c m with
  | Some a, Some k, Some v =>
      if bool_decide (opted_in (m_app m) a)
      then Next (set_app (local_put (m_app m) a k v) m)
      else Panic
  | _, _, _ => Panic
  end.
End App.

(** [AssetHolding.balance(account, asset)]: a value that may be absent.
    The asset is given by its index in [Txn.assets]. Running it stores the
    presence flag and the amount in two scratch slots. *)
Record MaybeValue := {
  mv_run : Stmt;
  hasValue : Expr;
  value : Expr;
}.

Module AssetHolding.
Definition balance (slot_ok slot_val : nat) (account asset : Expr)
  : MaybeValue :=
  {| mv_run := fun c m =>
       match eval_bytes account c m, eval_uint asset c m with
       | Some a, Some i =>
           match tx_assets (ctx_txn c) !! Z.to_nat i with
           | Some id =>
               let h := m_holdings m a !! id in
               Next (set_scratch
                       (<[slot_ok := Uint (bool_to_Z (bool_decide (is_Some h)))]>
                          (<[slot_val := Uint (default 0 (h_amount <$> h))]>
                             (m_scratch m)))
                       m)
           | None => Panic
           end
       | _, _ => Panic
       end;
     hasValue := ScratchVar.load slot_ok;
     value := ScratchVar.load slot_val |}.
End AssetHolding.

(** Inner transactions. [Begin] starts one, sent by the application's own
    account; [SetFields] sets the listed fields in order; [Submit] has the
    ledger execute it at once and fails when the ledger refuses it. *)
Module TxnField.
Inductive t := type_enum | asset_receiver | asset_amount | fee | xfer_asset.
End TxnField.

Definition set_field (f : TxnField.t) (v : TealValue) (i : InnerTxn)
  : option InnerTxn :=
  match f, v with
  | TxnField.type_enum, Uint n =>
      Some {| itxn_sender := itxn_sender i; itxn_type_enum := n;
              itxn_asset_receiver := itxn_asset_receiver i;
              itxn_asset_amount := itxn_asset_amount i;
              itxn_fee := itxn_fee i; itxn_xfer_asset := itxn_xfer_asset i |}
  | TxnField.asset_receiver, Bytes a =>
      Some {| itxn_sender := itxn_sender i; itxn_type_enum := itxn_type_enum i;
              itxn_asset_receiver := a;
              itxn_asset_amount := itxn_asset_amount i;
              itxn_fee := itxn_fee i; itxn_xfer_asset := itxn_xfer_asset i |}
  | TxnField.asset_amount, Uint n =>
      Some {| itxn_sender := itxn_sender i; itxn_type_enum := itxn_type_enum i;
              itxn_asset_receiver := itxn_asset_receiver i;
              itxn_asset_amount := n;
              itxn_fee := itxn_fee i; itxn_xfer_asset := itxn_xfer_asset i |}
  | TxnField.fee, Uint n =>
      Some {| itxn_sender := itxn_sender i; itxn_type_enum := itxn_type_enum i;
              itxn_asset_receiver := itxn_asset_receiver i;
              itxn_asset_amount := itxn_asset_amount i;
              itxn_fee := n; itxn_xfer_asset := itxn_xfer_asset i |}
  | TxnField.xfer_asset, Uint n =>
      Some {| itxn_sender := itxn_sender i; itxn_type_enum := itxn_type_enum i;
              itxn_asset_receiver := itxn_asset_receiver i;
              itxn_asset_amount := itxn_asset_amount i;
              itxn_fee := itxn_fee i; itxn_xfer_asset := n |}
  | _, _ => None
  end.

Fixpoint set_fields (l : list (TxnField.t * Expr)) (c : Ctx) (m : Machine)
  (i : InnerTxn) : option InnerTxn :=
  match l with
  | [] => Some i
  | (f, e) :: l' => v ← e c m; i' ← set_field f v i; set_fields l' c m i'
  end.

(** The ledger's execution of an asset transfer, on the holdings [H].

    A transfer of amount 0 from an account to itself opts the account into
    the asset: a holding of 0 is allocated if there is none, provided the
    asset exists. The amount is then taken out of the sender's holding and
    put into the receiver's; an amount of 0 moves nothing and asks nothing;
    a positive amount needs a holding on either side that is not frozen,
    and enough in the sender's. (The supply of an asset fits 64 bits, so a
    receipt never overflows.) Every account is taken to hold the Algos
    that its fees and its minimum balance ask for. *)
Definition Holdings : Type := address -> gmap Z Holding.

Definition set_holding (H : Holdings) (a : address) (id : Z) (h : Holding)
  : Holdings :=
  fun x => if bool_decide (x = a) then <[id := h]> (H x) else H x.

Definition allocate_holding (assets : gmap Z bool) (H : Holdings)
  (a : address) (id : Z) : option Holdings :=
  match H a !! id with
  | Some _ => Some H
  | None =>
      frozen ← assets !! id;
      Some (set_holding H a id {| h_amount := 0; h_frozen := frozen |})
  end.

Definition take_out (H : Holdings) (a : address) (id amount : Z)
  : option Holdings :=
  if amount =? 0 then Some H
  else
    h ← H a !! id;
    if h_frozen h || (h_amount h <? amount) then None
    else Some (set_holding H a id
                 {| h_amount := h_amount h - amount;
                    h_frozen := h_frozen h |}).

Definition put_in (H : Holdings) (a : address) (id amount : Z)
  : option Holdings :=
  if amount =? 0 then Some H
  else
    h ← H a !! id;
    if h_frozen h then None
    else Some (set_holding H a id
                 {| h_amount := h_amount h + amount;
                    h_frozen := h_frozen h |}).

Definition asset_transfer (assets : gmap Z bool) (H : Holdings) (i : InnerTxn)
  : option Holdings :=
  H0 ← (if (itxn_asset_amount i =? 0)
           && bool_decide (itxn_asset_receiver i = itxn_sender i)
        then allocate_holding assets H (itxn_sender i) (itxn_xfer_asset i)
        else Some H);
  H1 ← take_out H0 (itxn_sender i) (itxn_xfer_asset i) (itxn_asset_amount i);
  put_in H1 (itxn_asset_receiver i) (itxn_xfer_asset i) (itxn_asset_amount i).

(** The contract submits asset transfers only; an inner transaction whose
    type was not set, or was set to another type, is refused here. The fee
    of the inner transactions of the contract is 0: it is paid out of the
    fee of the call, which the handlers check beforehand. *)
Definition perform (assets : gmap Z bool) (H : Holdings) (i : InnerTxn)
  : option Holdings :=
  if itxn_type_enum i =? type_code axfer then asset_transfer assets H i
  else None.

Module InnerTxnBuilder.
Definition Begin : Stmt := fun c m =>
  match m_pending m with
  | Some _ => Panic
  | None =>
      Next (set_pending
              (Some {| itxn_sender :=
                         g_current_application_address (ctx_ledger c);
                       itxn_type_enum := 0;
                       itxn_asset_receiver := zero_address;
                       itxn_asset_amount := 0;
                       itxn_fee := g_min_txn_fee (ctx_ledger c);
                       itxn_xfer_asset := 0 |}) m)
  end.

Definition SetFields (l : list (TxnField.t * Expr)) : Stmt := fun c m =>
  match m_pending m with
  | Some i =>
      match set_fields l c m i with
      | Some i' => Next (set_pending (Some i') m)
      | None => Panic
      end
  | None => Panic
  end.

Definition Submit : Stmt := fun c m =>
  match m_pending m with
  | Some i =>
      match perform (g_assets (ctx_ledger c)) (m_holdings m) i with
      | Some H =>
          Next {| m_app := m_app m; m_scratch := m_scratch m;
                  m_pending := None; m_submitted := m_submitted m ++ [i];
                  m_holdings := H |}
      | None => Panic
      end
  | None => Panic
  end.
End InnerTxnBuilder.

(** ** Control *)

Fixpoint Seq (l : list Stmt) : Stmt := fun c m =>
  match l with
  | [] => Next m
  | s :: l' =>
      match s c m with
      | Next m' => Seq l' c m'
      | o => o
      end
  end.

Definition Assert (e : Expr) : Stmt := fun c m =>
  match eval_uint e c m with
  | Some n => if n =? 0 then Panic else Next m
  | None => Panic
  end.

Definition Return (e : Expr) : Stmt := fun c m =>
  match eval_uint e c m with
  | Some n => Exit n m
  | None => Panic
  end.

Definition Approve : Stmt := Return (Int 1).
Definition Reject : Stmt := Return (Int 0).
Definition Err : Stmt := fun _ _ => Panic.

(** [Cond]: the body of the first branch whose condition is non-zero; the
    program fails when there is none. *)
Fixpoint Cond (l : list (Expr * Stmt)) : Stmt := fun c m =>
  match l with
  | [] => Panic
  | (e, s) :: l' =>
      match eval_uint e c m with
      | Some n => if n =? 0 then Cond l' c m else s c m
      | None => Panic
      end
  end.

(** A subroutine with one argument: the argument is evaluated at the call
    and kept in a scratch slot. *)
Definition Subroutine1 (slot : nat) (body : Expr -> Stmt) (arg : Expr) : Stmt :=
  Seq [ScratchVar.store slot arg; body (ScratchVar.load slot)].

(** ** The contract *)

Section approval_program.

Local Open Scope teal_scope.

(* global variables *)
Definition creator : Expr := BytesE "creator".
Definition city : Expr := BytesE "city".
Definition max_threshold : Expr := BytesE "max".
Definition min_threshold : Expr := BytesE "min".
Definition vault_asset : Expr := BytesE "m_asset".
Definition pos_asset : Expr := BytesE "pos_asset".
Definition rwd_asset : Expr := BytesE "rwd_asset".
Definition creation_time : Expr := BytesE "s_date".

(* local variables *)
Definition deposit_balance : Expr := BytesE "balance".
Definition deposit_timestamp : Expr := BytesE "d_timestamp".

(* operations *)
Definition op_contract_opt_in_vault_asset : Expr :=
  BytesE "contract_opt_in_vault_asset".
Definition op_usr_opt_in : Expr := BytesE "usr_opt_in".
Definition op_usr_deposit : Expr := BytesE "usr_deposit".
Definition op_usr_withdrawal : Expr := BytesE "usr_withdrawal".

(* scratch slots of the subroutine argument, the holding lookup and temp *)
Definition slot_asset_id : nat := 0.
Definition slot_has_value : nat := 1.
Definition slot_value : nat := 2.
Definition slot_temp : nat := 3.

Definition asset_opt_in_check : MaybeValue :=
  AssetHolding.balance slot_has_value slot_value
    Global.current_application_address (Int 0).

Definition contract_opt_in_asset_body (asset_id : Expr) : Stmt :=
  Seq [
    mv_run asset_opt_in_check;
    Assert (And [
      Txn.type_enum == TxnType.ApplicationCall;
      Global.group_size == Int 1;
      Txn.group_index == Int 0;
      Txn.rekey_to == Global.zero_address;
      Txn.assets_length == Int 1;
      Txn.assets 0 == asset_id;
      hasValue asset_opt_in_check == Int 0;
      Txn.sender == App.globalGet creator;
      Txn.fee >= Global.min_txn_fee * Int 2
    ]);
    InnerTxnBuilder.Begin;
    InnerTxnBuilder.SetFields [
      (TxnField.type_enum, TxnType.AssetTransfer);
      (TxnField.asset_receiver, Global.current_application_address);
      (TxnField.asset_amount, Int 0);
      (TxnField.fee, Int 0);
      (TxnField.xfer_asset, asset_id)
    ];
    InnerTxnBuilder.Submit;
    Approve
  ].

Definition contract_opt_in_asset : Expr -> Stmt :=
  Subroutine1 slot_asset_id contract_opt_in_asset_body.

Definition usr_opt_in : Stmt :=
  Seq [
    Assert (And [
      Txn.type_enum == TxnType.ApplicationCall;
      Global.group_size == Int 1;
      Txn.group_index == Int 0;
      Txn.rekey_to == Global.zero_address;
      App.optedIn Txn.sender Global.current_application_id == Int 0;
      Txn.fee >= Global.min_txn_fee
    ]);
    App.localPut Txn.sender deposit_balance (Int 0);
    App.localPut Txn.sender deposit_timestamp (Int 0);
    Approve
  ].

Definition usr_deposit : Stmt :=
  Seq [
    Assert (And [
      Txn.type_enum == TxnType.AssetTransfer;
      Global.group_size == Int 1;
      Txn.group_index == Int 0;
      Txn.rekey_to == Global.zero_address;
      Txn.asset_close_to == Global.zero_address;
      App.optedIn Txn.sender Global.current_application_id;
      Txn.asset_receiver == Global.current_application_address;
      Txn.xfer_asset == App.globalGet vault_asset;
      Txn.asset_amount > Int 0;
      Txn.fee >= Global.min_txn_fee
    ]);
    App.localPut Txn.sender deposit_balance
      (App.localGet Txn.sender deposit_balance + Txn.asset_amount);
    App.localPut Txn.sender deposit_timestamp Global.latest_timestamp;
    Approve
  ].

Definition usr_withdrawal : Stmt :=
  let temp_store := ScratchVar.store slot_temp in
  let temp_load := ScratchVar.load slot_temp in
  Seq [
    Assert (And [
      Txn.type_enum == TxnType.ApplicationCall;
      Global.group_size == Int 1;
      Txn.group_index == Int 0;
      Txn.rekey_to == Global.zero_address;
      Txn.application_args_length == Int 2;
      Txn.assets_length == Int 1;
      App.optedIn Txn.sender Global.current_application_id;
      Txn.assets 0 == App.globalGet vault_asset;
      Btoi (Txn.application_args 1) > Int 0;
      Btoi (Txn.application_args 1) <= App.localGet Txn.sender deposit_balance;
      Txn.fee >= Global.min_txn_fee * Int 2
    ]);
    temp_store (App.localGet Txn.sender deposit_balance);
    App.localPut Txn.sender deposit_balance
      (temp_load - Btoi (Txn.application_args 1));
    InnerTxnBuilder.Begin;
    InnerTxnBuilder.SetFields [
      (TxnField.type_enum, TxnType.AssetTransfer);
      (TxnField.asset_receiver, Txn.sender);
      (TxnField.asset_amount, Btoi (Txn.application_args 1));
      (TxnField.fee, Int 0);
      (TxnField.xfer_asset, Txn.assets 0)
    ];
    InnerTxnBuilder.Submit;
    Approve
  ].

Definition handle_creation : Stmt :=
  Seq [
    Assert (And [
      Txn.application_args_length == Int 3;
      Txn.assets_length == Int 1
    ]);
    App.globalPut creator Txn.sender;
    App.globalPut city (Txn.application_args 0);
    App.globalPut max_threshold (Btoi (Txn.application_args 1));
    App.globalPut min_threshold (Btoi (Txn.application_args 2));
    App.globalPut vault_asset (Txn.assets 0);
    App.globalPut creation_time Global.latest_timestamp;
    Approve
  ].

Definition handle_optin : Stmt :=
  Seq [
    Cond [
      (Txn.application_args 0 == op_contract_opt_in_vault_asset,
       contract_opt_in_asset (App.globalGet vault_asset));
      (Txn.application_args 0 == op_usr_opt_in, usr_opt_in)
    ];
    Reject
  ].

Definition handle_noop : Stmt :=
  Seq [
    Cond [
      (Txn.application_args 0 == op_usr_deposit, usr_deposit);
      (Txn.application_args 0 == op_usr_withdrawal, usr_withdrawal)
    ];
    Reject
  ].

Definition handle_updateapp : Stmt := Err.

Definition handle_deleteapp : Stmt := Err.

Definition handle_closeout : Stmt := Err.

Definition program : Stmt :=
  Cond [
    (Txn.application_id == Int 0, handle_creation);
    (Txn.on_completion == OnComplete.OptIn, handle_optin);
    (Txn.on_completion == OnComplete.CloseOut, handle_closeout);
    (Txn.on_completion == OnComplete.UpdateApplication, handle_updateapp);
    (Txn.on_completion == OnComplete.DeleteApplication, handle_deleteapp);
    (Txn.on_completion == OnComplete.NoOp, handle_noop)
  ].

End approval_program.

Definition clear_state_program : Stmt := Return (Int 1).

(** ** One application call on the ledger *)

(** The ledger runs the approval program on application calls and on
    nothing else: the type of the transaction is [appl] and the fields of
    an asset transfer are not set. *)
Definition application_call (T : Transaction) : Prop :=
  tx_type_enum T = appl ∧
  tx_asset_receiver T = zero_address ∧ tx_xfer_asset T = 0 ∧
  tx_asset_amount T = 0 ∧ tx_asset_close_to T = zero_address.

#[global] Instance application_call_dec T : Decision (application_call T).
Proof. unfold application_call. apply _. Defined.

(** What the ledger does with the on-completion action of a call before it
    runs the approval program, and after the program has approved.

    Before: an [OptIn] call of a sender that is opted in is refused;
    otherwise the sender's local store is allocated, empty, and the program
    runs on the state that has it. A [ClearState] call runs the clear-state
    program, not this one. A [CloseOut] call needs a sender that is opted
    in, which no account is when the application is being created.

    After: [CloseOut] removes the sender's local store, [DeleteApplication]
    removes the application and with it the global store; [OptIn] keeps the
    store allocated before. *)
Definition allocate (s : AppState) (a : address) : AppState :=
  {| app_global := app_global s; app_local := <[a := ∅]> (app_local s) |}.

Definition before_program (T : Transaction) (s : AppState)
  : option AppState :=
  if bool_decide (application_call T) then
    match tx_on_completion T with
    | OptInOC =>
        if bool_decide (opted_in s (tx_sender T)) then None
        else Some (allocate s (tx_sender T))
    | CloseOutOC =>
        if (tx_application_id T =? 0)
           || negb (bool_decide (opted_in s (tx_sender T)))
        then None else Some s
    | ClearStateOC => None
    | NoOpOC | UpdateApplicationOC | DeleteApplicationOC => Some s
    end
  else None.

Definition after_program (T : Transaction) (s : AppState) : AppState :=
  match tx_on_completion T with
  | CloseOutOC =>
      {| app_global := app_global s;
         app_local := delete (tx_sender T) (app_local s) |}
  | DeleteApplicationOC => {| app_global := ∅; app_local := app_local s |}
  | NoOpOC | OptInOC | ClearStateOC | UpdateApplicationOC => s
  end.

Definition start (G : Ledger) (s : AppState) : Machine :=
  {| m_app := s; m_scratch := ∅; m_pending := None; m_submitted := [];
     m_holdings := g_holdings G |}.

(** The run of the approval program on a call: a call the ledger refuses
    beforehand fails without a step of the program. *)
Definition approval_program (G : Ledger) (T : Transaction) (s : AppState)
  : Outcome :=
  match before_program T s with
  | Some s0 => program {| ctx_ledger := G; ctx_txn := T |} (start G s0)
  | None => Panic
  end.

(** The decision on a call, the application state after it and the inner
    transactions it emitted. A program that fails or returns 0 rejects the
    transaction, and a rejected transaction leaves nothing behind (source,
    note before [usr_deposit]: "if tx fails anywhere during execution
    everthing reverts to pre call state"). *)
Record Result := {
  approved : bool;
  new_state : AppState;
  outbound : list InnerTxn;
}.

Definition rejected (s : AppState) : Result :=
  {| approved := false; new_state := s; outbound := [] |}.

Definition finish (s : AppState) (o : Outcome) : Result :=
  match o with
  | Exit v m =>
      if v =? 0 then rejected s
      else {| approved := true; new_state := m_app m;
              outbound := m_submitted m |}
  | Next _ | Panic => rejected s
  end.

Definition call (G : Ledger) (T : Transaction) (s : AppState) : Result :=
  let r := finish s (approval_program G T s) in
  if approved r
  then {| approved := true; new_state := after_program T (new_state r);
          outbound := outbound r |}
  else rejected s.

(** The handler a transaction is routed to by [program], [handle_optin] and
    [handle_noop]. *)
Inductive operation :=
| OpCreation | OpAssetOptIn | OpAccountOptIn | OpDeposit | OpWithdrawal.

#[global] Instance operation_eq_dec : EqDecision operation.
Proof. solve_decision. Defined.

Definition dispatch (T : Transaction) : option operation :=
  if tx_application_id T =? 0 then Some OpCreation
  else match tx_on_completion T with
       | OptInOC =>
           match tx_application_args T !! 0%nat with
           | Some tag =>
               if String.eqb tag "contract_opt_in_vault_asset"
               then Some OpAssetOptIn
               else if String.eqb tag "usr_opt_in" then Some OpAccountOptIn
               else None
           | None => None
           end
       | NoOpOC =>
           match tx_application_args T !! 0%nat with
           | Some tag =>
               if String.eqb tag "usr_deposit" then Some OpDeposit
               else if String.eqb tag "usr_withdrawal" then Some OpWithdrawal
               else None
           | None => None
           end
       | _ => None
       end.

Definition handler (o : option operation) : Stmt :=
  match o with
  | Some OpCreation => handle_creation
  | Some OpAssetOptIn => contract_opt_in_asset (App.globalGet vault_asset)
  | Some OpAccountOptIn => usr_opt_in
  | Some OpDeposit => usr_deposit
  | Some OpWithdrawal => usr_withdrawal
  | None => Err
  end.

(** The category of a transaction as the dispatcher sees it: a call with
    application id 0 is the creation call, whatever its on-completion
    action; every other call is classified by that action. *)
Inductive category :=
| Creation | AccountRegistration | AccountDeregistration | PlainCall
| ProgramUpdate | ProgramRemoval | Unrecognized.

Definition category_of (T : Transaction) : category :=
  if tx_application_id T =? 0 then Creation
  else match tx_on_completion T with
       | NoOpOC => PlainCall
       | OptInOC => AccountRegistration
       | CloseOutOC => AccountDeregistration
       | ClearStateOC => Unrecognized
       | UpdateApplicationOC => ProgramUpdate
       | DeleteApplicationOC => ProgramRemoval
       end.

(** An expression holds when it evaluates to a non-zero integer. *)
Definition holds (e : Expr) (c : Ctx) (m : Machine) : Prop :=
  ∃ n, eval_uint e c m = Some n ∧ n ≠ 0.

(** The tracked fields of an account. *)
Definition depositBalance (s : AppState) (a : address) : option TealValue :=
  local_get s a "balance".

Definition depositTimestamp (s : AppState) (a : address) : option TealValue :=
  local_get s a "d_timestamp".

(** The withdrawal amount carried by a transaction: [Btoi] of the second
    argument. *)
Definition withdrawal_amount (T : Transaction) : option Z :=
  tx_application_args T !! 1%nat ≫= btoi.

(** ** The clear-state call *)

(** A clear-state call runs [clear_state_program]; the ledger then removes
    the local store of the sender, whatever the program returned, and keeps
    the program's other effects only when it returned non-zero. *)
Definition clear_state_call (G : Ledger) (T : Transaction) (s : AppState)
  : Result :=
  let r := finish s (clear_state_program {| ctx_ledger := G; ctx_txn := T |}
                       (start G s)) in
  {| approved := approved r;
     new_state := {| app_global := app_global (new_state r);
                     app_local := delete (tx_sender T)
                                    (app_local (new_state r)) |};
     outbound := outbound r |}.

(** ** Sequences of calls *)

Definition event : Type := Ledger * Transaction.

Fixpoint run (s : AppState) (tr : list event) : AppState :=
  match tr with
  | [] => s
  | (G, T) :: tr' => run (new_state (call G T s)) tr'
  end.

(** A transaction addressed to the application runs the clear-state
    program when its on-completion action is [ClearState] and the approval
    program otherwise. *)
Definition invoke (G : Ledger) (T : Transaction) (s : AppState) : Result :=
  if bool_decide (tx_on_completion T = ClearStateOC)
  then clear_state_call G T s else call G T s.

Fixpoint execute (s : AppState) (tr : list event) : AppState :=
  match tr with
  | [] => s
  | (G, T) :: tr' => execute (new_state (invoke G T s)) tr'
  end.

(** The account [a] keeps its local store over [tr]: no transaction of
    [tr] is a clear-state call of [a]. *)
Definition keeps_state (a : address) (tr : list event) : Prop :=
  Forall (λ e : event,
            ¬ (tx_on_completion e.2 = ClearStateOC ∧ tx_sender e.2 = a)) tr.

(** What one call credits to, and debits from, the balance of account [a]:
    the transferred amount of an approved deposit of [a], the amount of an
    approved withdrawal of [a]. *)
Definition deposited (a : address) (G : Ledger) (T : Transaction) (s : AppState)
  : Z :=
  if approved (call G T s)
     && bool_decide (dispatch T = Some OpDeposit)
     && bool_decide (tx_sender T = a)
  then tx_asset_amount T else 0.

Definition withdrawn (a : address) (G : Ledger) (T : Transaction) (s : AppState)
  : Z :=
  if approved (call G T s)
     && bool_decide (dispatch T = Some OpWithdrawal)
     && bool_decide (tx_sender T = a)
  then default 0 (withdrawal_amount T) else 0.

(** The same summed over a sequence of transactions, clear-state calls
    included. *)
Fixpoint total_deposited (a : address) (s : AppState) (tr : list event) : Z :=
  match tr with
  | [] => 0
  | (G, T) :: tr' =>
      deposited a G T s + total_deposited a (new_state (invoke G T s)) tr'
  end.

Fixpoint total_withdrawn (a : address) (s : AppState) (tr : list event) : Z :=
  match tr with
  | [] => 0
  | (G, T) :: tr' =>
      withdrawn a G T s + total_withdrawn a (new_state (invoke G T s)) tr'
  end.

(** ** States that differ in the thresholds only *)

Definition threshold_equiv (s1 s2 : AppState) : Prop :=
  app_local s1 = app_local s2 ∧
  ∀ k : string, k ≠ "max" → k ≠ "min" →
    app_global s1 !! k = app_global s2 !! k.

Definition machine_equiv (m1 m2 : Machine) : Prop :=
  threshold_equiv (m_app m1) (m_app m2) ∧
  m_scratch m1 = m_scratch m2 ∧
  m_pending m1 = m_pending m2 ∧
  m_submitted m1 = m_submitted m2 ∧
  m_holdings m1 = m_holdings m2.

Definition outcome_equiv (o1 o2 : Outcome) : Prop :=
  match o1, o2 with
  | Next m1, Next m2 => machine_equiv m1 m2
  | Exit v1 m1, Exit v2 m2 => v1 = v2 ∧ machine_equiv m1 m2
  | Panic, Panic => True
  | _, _ => False
  end.

(** An expression, a statement that cannot tell such states apart. *)
Definition low_expr (e : Expr) : Prop :=
  ∀ c m1 m2, machine_equiv m1 m2 → e c m1 = e c m2.

Definition low_stmt (s : Stmt) : Prop :=
  ∀ c m1 m2, machine_equiv m1 m2 → outcome_equiv (s c m1) (s c m2).

(** ** What each operation requires

    The conjunction each handler asserts, read off its [Assert (And ...)],
    and the inner transaction it submits. *)

Definition deposit_pre (G : Ledger) (T : Transaction) (s : AppState) : Prop :=
  tx_type_enum T = axfer ∧ g_group_size G = 1 ∧ tx_group_index T = 0 ∧
  tx_rekey_to T = zero_address ∧ tx_asset_close_to T = zero_address ∧
  opted_in s (tx_sender T) ∧
  tx_asset_receiver T = g_current_application_address G ∧
  Uint (tx_xfer_asset T) = global_get s "m_asset" ∧
  0 < tx_asset_amount T ∧ g_min_txn_fee G <= tx_fee T.

Definition withdrawal_pre (G : Ledger) (T : Transaction) (s : AppState)
  (a b id : Z) : Prop :=
  tx_type_enum T = appl ∧ g_group_size G = 1 ∧ tx_group_index T = 0 ∧
  tx_rekey_to T = zero_address ∧
  length (tx_application_args T) = 2%nat ∧
  tx_assets T = [id] ∧ global_get s "m_asset" = Uint id ∧
  withdrawal_amount T = Some a ∧
  depositBalance s (tx_sender T) = Some (Uint b) ∧
  0 < a ∧ a <= b ∧
  g_min_txn_fee G * 2 <= uint64_max ∧ g_min_txn_fee G * 2 <= tx_fee T.

Definition withdrawal_itxn (G : Ledger) (T : Transaction) (a id : Z)
  : InnerTxn :=
  {| itxn_sender := g_current_application_address G;
     itxn_type_enum := type_code axfer;
     itxn_asset_receiver := tx_sender T;
     itxn_asset_amount := a;
     itxn_fee := 0;
     itxn_xfer_asset := id |}.

(** The ledger executes the transfer a withdrawal submits. *)
Definition payable (G : Ledger) (T : Transaction) (a id : Z) : Prop :=
  is_Some (asset_transfer (g_assets G) (g_holdings G)
             (withdrawal_itxn G T a id)).

Definition asset_optin_pre (G : Ledger) (T : Transaction) (s : AppState)
  (id : Z) : Prop :=
  tx_type_enum T = appl ∧ g_group_size G = 1 ∧ tx_group_index T = 0 ∧
  tx_rekey_to T = zero_address ∧
  tx_assets T = [id] ∧ global_get s "m_asset" = Uint id ∧
  g_holdings G (g_current_application_address G) !! id = None ∧
  is_Some (g_assets G !! id) ∧
  global_get s "creator" = Bytes (tx_sender T) ∧
  g_min_txn_fee G * 2 <= uint64_max ∧ g_min_txn_fee G * 2 <= tx_fee T.

Definition asset_optin_itxn (G : Ledger) (id : Z) : InnerTxn :=
  {| itxn_sender := g_current_application_address G;
     itxn_type_enum := type_code axfer;
     itxn_asset_receiver := g_current_application_address G;
     itxn_asset_amount := 0;
     itxn_fee := 0;
     itxn_xfer_asset := id |}.

(** ** A running example

    The vault of asset 7 created by [CREATOR], at address [VAULT] with
    application id 42, on a ledger whose minimum fee is 1000, where asset
    7 exists and is not frozen by default, the vault holds what
    [vault_holdings] says and every other account what [user_holdings]
    says. In [ledger_at] every other account has opted into asset 7. *)

Definition holding (n : Z) : Holding := {| h_amount := n; h_frozen := false |}.

Definition ledger_with (t : Z) (vault_holdings user_holdings : gmap Z Z)
  : Ledger :=
  {| g_group_size := 1;
     g_min_txn_fee := 1000;
     g_latest_timestamp := t;
     g_current_application_id := 42;
     g_current_application_address := "VAULT";
     g_holdings := fun a => if String.eqb a "VAULT"
                            then holding <$> vault_holdings
                            else holding <$> user_holdings;
     g_assets := {[ 7 := false ]} |}.

Definition ledger_at (t : Z) (vault_holdings : gmap Z Z) : Ledger :=
  ledger_with t vault_holdings {[ 7 := 0 ]}.

Definition account (balance timestamp : Z) : gmap string TealValue :=
  {[ "balance" := Uint balance; "d_timestamp" := Uint timestamp ]}.

Definition vault_state (max min : Z)
  (accounts : gmap address (gmap string TealValue)) : AppState :=
  {| app_global :=
       {[ "creator" := Bytes "CREATOR"; "city" := Bytes "Lisbon";
          "max" := Uint max; "min" := Uint min;
          "m_asset" := Uint 7; "s_date" := Uint 100 ]};
     app_local := accounts |}.

Definition call_txn (sender : address) (oc : on_complete) (fee : Z)
  (args : list string) : Transaction :=
  {| tx_type_enum := appl; tx_sender := sender; tx_fee := fee;
     tx_rekey_to := zero_address; tx_group_index := 0;
     tx_assets := [7]; tx_application_args := args;
     tx_application_id := 42; tx_on_completion := oc;
     tx_asset_receiver := zero_address; tx_xfer_asset := 0;
     tx_asset_amount := 0; tx_asset_close_to := zero_address |}.

(** A request for a deposit, as it reaches the approval program: an
    application call that carries the deposit tag. *)
Definition deposit_txn (sender : address) : Transaction :=
  call_txn sender NoOpOC 1000 ["usr_deposit"].

(** Byte strings given by their bytes; the big-endian bytes of 500, of 600
    and of 0. *)
Definition bytes_of (l : list nat) : string :=
  foldr (fun n s => String (Ascii.ascii_of_nat n) s) EmptyString l.

Definition bytes_500 : string := bytes_of [1; 244]%nat.
Definition bytes_600 : string := bytes_of [2; 88]%nat.
Definition bytes_0 : string := bytes_of [0]%nat.

Definition withdrawal_txn (sender : address) (amount : string) : Transaction :=
  call_txn sender NoOpOC 2000 ["usr_withdrawal"; amount].

(** ** Further notions used in the properties of the contract *)

(** The state the creation call leaves: the six global keys written in the
    order of [handle_creation]. *)
Definition created (G : Ledger) (T : Transaction) (s : AppState)
  (name : string) (x y id : Z) : AppState :=
  global_put
    (global_put
       (global_put
          (global_put
             (global_put
                (global_put s "creator" (Bytes (tx_sender T)))
                "city" (Bytes name))
             "max" (Uint x))
          "min" (Uint y))
       "m_asset" (Uint id))
    "s_date" (Uint (g_latest_timestamp G)).


Definition empty_state : AppState := {| app_global := ∅; app_local := ∅ |}.

(** What the inner transactions of one call, and of a sequence of calls,
    pay to account [a]. *)
Definition paid_by (a : address) (l : list InnerTxn) : Z :=
  foldr (fun i n =>
           (if bool_decide (itxn_asset_receiver i = a)
            then itxn_asset_amount i else 0) + n) 0 l.

Fixpoint total_paid (a : address) (s : AppState) (tr : list event) : Z :=
  match tr with
  | [] => 0
  | (G, T) :: tr' =>
      paid_by a (outbound (invoke G T s))
      + total_paid a (new_state (invoke G T s)) tr'
  end.

(** ** Evaluation lemmas *)

Lemma Seq_cons s l c m :
  Seq (s :: l) c m =
  match s c m with
  | Next m' => Seq l c m'
  | o => o
  end.
Proof. reflexivity. Qed.

Lemma Cond_cons e s l c m :
  Cond ((e, s) :: l) c m =
  match eval_uint e c m with
  | Some n => if n =? 0 then Cond l c m else s c m
  | None => Panic
  end.
Proof. reflexivity. Qed.

(** Unfolds the expression-level operators and the field accessors, and
    nothing of the statement level. *)
Create HintDb teal_expr discriminated.

#[global] Hint Unfold
  eval_uint eval_bytes Eq_ Gt_ Ge_ Le_ Add_ Minus_ Mul_ Btoi Int BytesE
  TxnType.Payment TxnType.AssetTransfer TxnType.ApplicationCall
  OnComplete.NoOp OnComplete.OptIn OnComplete.CloseOut
  OnComplete.ClearState OnComplete.UpdateApplication
  OnComplete.DeleteApplication
  Txn.type_enum Txn.sender Txn.fee Txn.rekey_to Txn.group_index
  Txn.application_id Txn.on_completion Txn.asset_receiver Txn.xfer_asset
  Txn.asset_amount Txn.asset_close_to Txn.assets_length Txn.assets
  Txn.application_args_length Txn.application_args
  Global.group_size Global.min_txn_fee Global.latest_timestamp
  Global.current_application_id Global.current_application_address
  Global.zero_address
  creator city max_threshold min_threshold vault_asset creation_time
  deposit_balance deposit_timestamp op_contract_opt_in_vault_asset
  op_usr_opt_in op_usr_deposit op_usr_withdrawal : teal_expr.

Ltac teal_eval :=
  autounfold with teal_expr in *;
  cbn [teal_eq as_uint as_bytes mbind option_bind fmap option_fmap option_map
       ctx_txn ctx_ledger] in *.

(** The dispatcher of the source and [dispatch] agree. *)
Lemma program_dispatch c m :
  program c m =
  match dispatch (ctx_txn c) with
  | Some OpCreation => handle_creation c m
  | Some op => Seq [handler (Some op); Reject] c m
  | None => Panic
  end.
Proof.
  unfold program, dispatch. rewrite !Cond_cons. teal_eval.
  destruct (tx_application_id (ctx_txn c) =? 0); [done|].
  destruct (tx_on_completion (ctx_txn c));
    cbn [oc_code Z.eqb Pos.eqb bool_to_Z Cond]; try done.
  - unfold handle_noop. rewrite Seq_cons, !Cond_cons. teal_eval.
    destruct (tx_application_args (ctx_txn c) !! 0%nat) as [tag|];
      teal_eval; [|done].
    destruct (String.eqb tag "usr_deposit"). 1: done.
    destruct (String.eqb tag "usr_withdrawal"). all: done.
  - unfold handle_optin. rewrite Seq_cons, !Cond_cons. teal_eval.
    destruct (tx_application_args (ctx_txn c) !! 0%nat) as [tag|];
      teal_eval; [|done].
    destruct (String.eqb tag "contract_opt_in_vault_asset"); [done|].
    destruct (String.eqb tag "usr_opt_in"); done.
Qed.

Lemma some_bool_nonzero (b : bool) :
  (∃ n, Some (bool_to_Z b) = Some n ∧ n ≠ 0) ↔ b = true.
Proof.
  split.
  - intros (n & [= <-] & Hn). destruct b; [reflexivity | contradiction].
  - intros ->. exists 1. split; [reflexivity | discriminate].
Qed.

Lemma none_nonzero : (∃ n : Z, None = Some n ∧ n ≠ 0) ↔ False.
Proof. split; [intros (n & [=] & _) | contradiction]. Qed.

Lemma and_all_true l c m :
  and_all l c m = Some true ↔ Forall (λ e, holds e c m) l.
Proof.
  induction l as [|e l IH]; cbn [and_all].
  - split; [constructor | reflexivity].
  - rewrite Forall_cons, <- IH. unfold holds.
    destruct (eval_uint e c m) as [x|]; cbn.
    2: { split; [discriminate | intros [(n & [=] & _) _]]. }
    destruct (and_all l c m) as [r|]; cbn.
    2: { split; [discriminate | intros [_ [=]]]. }
    destruct (Z.eqb_spec x 0) as [->|Hx]; cbn.
    + split; [discriminate | intros [(n & [= <-] & Hn) _]; contradiction].
    + split; [intros [= ->]; eauto | intros [_ [= ->]]; reflexivity].
Qed.

Lemma Assert_And l c m :
  Assert (And l) c m =
  match and_all l c m with Some true => Next m | _ => Panic end.
Proof.
  unfold Assert, And, eval_uint.
  destruct (and_all l c m) as [[]|]; reflexivity.
Qed.

Lemma holds_Eq a b c m :
  holds (a == b)%teal c m ↔ ∃ v, a c m = Some v ∧ b c m = Some v.
Proof.
  unfold holds, Eq_, eval_uint.
  destruct (a c m) as [v|]; cbn.
  2: { rewrite none_nonzero. split; [contradiction | intros (v & [=] & _)]. }
  destruct (b c m) as [w|]; cbn.
  2: { rewrite none_nonzero. split; [contradiction | intros (v' & _ & [=])]. }
  destruct v as [x|x], w as [y|y]; cbn.
  - rewrite some_bool_nonzero, Z.eqb_eq. split.
    + intros ->. eauto.
    + intros (v & [= <-] & [= <-]). reflexivity.
  - rewrite none_nonzero. split; [contradiction | intros (v & [= <-] & [=])].
  - rewrite none_nonzero. split; [contradiction | intros (v & [= <-] & [=])].
  - rewrite some_bool_nonzero, String.eqb_eq. split.
    + intros ->. eauto.
    + intros (v & [= <-] & [= <-]). reflexivity.
Qed.

Lemma holds_compare (a b : Expr) c m (f : Z → Z → bool) (P : Z → Z → Prop) :
  (∀ x y, f x y = true ↔ P x y) →
  (∃ n, (x ← eval_uint a c m; y ← eval_uint b c m;
         Some (bool_to_Z (f x y))) = Some n ∧ n ≠ 0) ↔
  ∃ x y, eval_uint a c m = Some x ∧ eval_uint b c m = Some y ∧ P x y.
Proof.
  intros Hf.
  destruct (eval_uint a c m) as [x|]; cbn.
  2: { rewrite none_nonzero.
       split; [contradiction | intros (x & y & [=] & _)]. }
  destruct (eval_uint b c m) as [y|]; cbn.
  2: { rewrite none_nonzero.
       split; [contradiction | intros (x' & y & _ & [=] & _)]. }
  rewrite some_bool_nonzero, Hf. split.
  - eauto.
  - intros (x' & y' & [= <-] & [= <-] & H). exact H.
Qed.

Lemma holds_Gt a b c m :
  holds (a > b)%teal c m ↔
  ∃ x y, eval_uint a c m = Some x ∧ eval_uint b c m = Some y ∧ y < x.
Proof.
  rewrite <- (holds_compare a b c m (λ x y, y <? x)).
  - unfold holds, Gt_, eval_uint at 1.
    destruct (eval_uint a c m), (eval_uint b c m); reflexivity.
  - intros x y. apply Z.ltb_lt.
Qed.

Lemma holds_Ge a b c m :
  holds (a >= b)%teal c m ↔
  ∃ x y, eval_uint a c m = Some x ∧ eval_uint b c m = Some y ∧ y <= x.
Proof.
  rewrite <- (holds_compare a b c m (λ x y, y <=? x)).
  - unfold holds, Ge_, eval_uint at 1.
    destruct (eval_uint a c m), (eval_uint b c m); reflexivity.
  - intros x y. apply Z.leb_le.
Qed.

Lemma holds_Le a b c m :
  holds (a <= b)%teal c m ↔
  ∃ x y, eval_uint a c m = Some x ∧ eval_uint b c m = Some y ∧ x <= y.
Proof.
  rewrite <- (holds_compare a b c m (λ x y, x <=? y)).
  - unfold holds, Le_, eval_uint at 1.
    destruct (eval_uint a c m), (eval_uint b c m); reflexivity.
  - intros x y. apply Z.leb_le.
Qed.

(** ** The handlers, one by one *)

#[global] Hint Unfold App.optedIn App.globalGet App.localGet ScratchVar.load
  : teal_expr.

Lemma ex_some_eq {A} (a b : A) :
  (∃ v, Some a = Some v ∧ Some b = Some v) ↔ a = b.
Proof.
  split.
  - intros (v & [= <-] & [= <-]). reflexivity.
  - intros ->. eauto.
Qed.

Lemma ex_some_rel {A} (a b : A) (P : A → A → Prop) :
  (∃ x y, Some a = Some x ∧ Some b = Some y ∧ P x y) ↔ P a b.
Proof.
  split.
  - intros (x & y & [= <-] & [= <-] & H). exact H.
  - eauto 6.
Qed.

Lemma Uint_eq a b : Uint a = Uint b ↔ a = b.
Proof. split; [intros [=] | intros ->]; done. Qed.

Lemma Bytes_eq a b : Bytes a = Bytes b ↔ a = b.
Proof. split; [intros [=] | intros ->]; done. Qed.

Lemma type_code_eq t u : type_code t = type_code u ↔ t = u.
Proof. split; [destruct t, u; (discriminate || reflexivity) | intros ->; done]. Qed.

Ltac holds_simpl :=
  rewrite ?holds_Eq, ?holds_Gt, ?holds_Ge, ?holds_Le; unfold holds;
  teal_eval;
  rewrite ?ex_some_eq, ?ex_some_rel, ?some_bool_nonzero, ?Uint_eq, ?Bytes_eq,
    ?type_code_eq, ?Z.eqb_refl, ?andb_true_l, ?bool_decide_eq_true.

Create HintDb teal_stmt discriminated.

#[global] Hint Unfold App.localPut App.globalPut Approve Reject Return
  ScratchVar.store : teal_stmt.

Ltac stmt_eval :=
  autounfold with teal_stmt; teal_eval.

(** ** Reading and writing the local store *)

Lemma local_get_put_eq s a k v :
  local_get (local_put s a k v) a k = Some v.
Proof.
  unfold local_get, local_put. cbn.
  rewrite lookup_insert_eq. cbn. rewrite lookup_insert_eq. reflexivity.
Qed.

Lemma local_get_put_key s a k k' v :
  k ≠ k' → opted_in s a →
  local_get (local_put s a k v) a k' = local_get s a k'.
Proof.
  unfold local_get, local_put, opted_in. intros Hk [st Hst]. cbn.
  rewrite lookup_insert_eq, Hst. cbn.
  rewrite lookup_insert_ne by done. reflexivity.
Qed.

Lemma local_get_put_account s a a' k k' v :
  a ≠ a' → local_get (local_put s a k v) a' k' = local_get s a' k'.
Proof.
  unfold local_get, local_put. intros Ha. cbn.
  rewrite lookup_insert_ne by done. reflexivity.
Qed.

Lemma opted_in_put s a a' k v :
  opted_in s a' → opted_in (local_put s a k v) a'.
Proof.
  unfold opted_in, local_put. cbn. intros H.
  destruct (decide (a = a')) as [->|Hne].
  - rewrite lookup_insert_eq. eauto.
  - rewrite lookup_insert_ne by done. exact H.
Qed.

Lemma app_global_put s a k v :
  app_global (local_put s a k v) = app_global s.
Proof. reflexivity. Qed.

(** [App.localPut] on an account that is opted in. *)
Lemma localPut_opted_in (k : string) (e : Expr) c m v :
  opted_in (m_app m) (tx_sender (ctx_txn c)) → e c m = Some v →
  App.localPut Txn.sender (BytesE k) e c m
  = Next (set_app (local_put (m_app m) (tx_sender (ctx_txn c)) k v) m).
Proof.
  intros Ho He. unfold App.localPut. teal_eval. rewrite He.
  rewrite bool_decide_eq_true_2 by exact Ho. reflexivity.
Qed.

Lemma localPut_not_opted_in (k : string) (e : Expr) c m :
  ¬ opted_in (m_app m) (tx_sender (ctx_txn c)) →
  App.localPut Txn.sender (BytesE k) e c m = Panic.
Proof.
  intros Ho. unfold App.localPut. teal_eval.
  destruct (e c m); [|reflexivity].
  rewrite bool_decide_eq_false_2 by exact Ho. reflexivity.
Qed.

Lemma usr_deposit_exit c m v m' :
  usr_deposit c m = Exit v m' ↔
  deposit_pre (ctx_ledger c) (ctx_txn c) (m_app m) ∧
  ∃ b, depositBalance (m_app m) (tx_sender (ctx_txn c)) = Some (Uint b) ∧
       b + tx_asset_amount (ctx_txn c) <= uint64_max ∧ v = 1 ∧
       m' = set_app
              (local_put
                 (local_put (m_app m) (tx_sender (ctx_txn c)) "balance"
                    (Uint (b + tx_asset_amount (ctx_txn c))))
                 (tx_sender (ctx_txn c)) "d_timestamp"
                 (Uint (g_latest_timestamp (ctx_ledger c)))) m.
Proof.
  unfold usr_deposit. rewrite Seq_cons, Assert_And.
  match goal with
  | |- context [and_all ?l c m] =>
      assert (HG : and_all l c m = Some true ↔
                   deposit_pre (ctx_ledger c) (ctx_txn c) (m_app m))
  end.
  { rewrite and_all_true, !Forall_cons, Forall_nil. holds_simpl.
    unfold deposit_pre. tauto. }
  destruct (and_all _ c m) as [[]|].
  2,3: split; [discriminate | intros [H _]; apply HG in H; discriminate].
  assert (HP : deposit_pre (ctx_ledger c) (ctx_txn c) (m_app m))
    by (apply HG; reflexivity).
  assert (Ho : opted_in (m_app m) (tx_sender (ctx_txn c))) by apply HP.
  rewrite Seq_cons. unfold deposit_balance, deposit_timestamp.
  unfold depositBalance.
  destruct (local_get (m_app m) (tx_sender (ctx_txn c)) "balance")
    as [[b|b]|] eqn:Hb.
  - destruct (Z.leb_spec (b + tx_asset_amount (ctx_txn c)) uint64_max).
    + erewrite localPut_opted_in; [|exact Ho|].
      2: { teal_eval. unfold App.localGet. teal_eval. rewrite Hb. cbn.
           destruct (Z.leb_spec (b + tx_asset_amount (ctx_txn c)) uint64_max);
             [reflexivity | lia]. }
      rewrite Seq_cons.
      erewrite localPut_opted_in; [| |reflexivity].
      2: { cbn [m_app set_app]. apply opted_in_put. exact Ho. }
      cbn. split.
      * intros [= <- <-]. split; [exact HP|]. exists b. auto.
      * intros (_ & b' & [= <-] & _ & -> & ->). reflexivity.
    + unfold App.localPut. teal_eval. unfold App.localGet. teal_eval.
      rewrite Hb. cbn.
      destruct (Z.leb_spec (b + tx_asset_amount (ctx_txn c)) uint64_max);
        [lia|].
      split; [discriminate | intros (_ & b' & [= <-] & Hle & _); lia].
  - unfold App.localPut. teal_eval. unfold App.localGet. teal_eval.
    rewrite Hb. cbn. split; [discriminate | intros (_ & b' & [=] & _)].
  - unfold App.localPut. teal_eval. unfold App.localGet. teal_eval.
    rewrite Hb. cbn. split; [discriminate | intros (_ & b' & [=] & _)].
Qed.

#[global] Hint Unfold InnerTxnBuilder.Begin InnerTxnBuilder.SetFields
  InnerTxnBuilder.Submit : teal_stmt.

Lemma eval_btoi_arg (l : list string) (i : nat) :
  ((Bytes <$> l !! i) ≫= as_bytes) ≫= (λ s, btoi s ≫= λ n, Some (Uint n))
  = Uint <$> (l !! i ≫= btoi).
Proof. destruct (l !! i) as [w|]; cbn; [destruct (btoi w)|]; reflexivity. Qed.

Lemma fmap_Uint_as_uint (o : option Z) : (Uint <$> o) ≫= as_uint = o.
Proof. destruct o; reflexivity. Qed.

Lemma singleton_list {A} (l : list A) (x : A) :
  l = [x] ↔ Z.of_nat (length l) = 1 ∧ l !! 0%nat = Some x.
Proof.
  split.
  - intros ->. split; reflexivity.
  - intros [Hl Hx]. destruct l as [|y [|z l]]; cbn in *; try lia.
    congruence.
Qed.

Lemma opted_in_local_get s a k :
  opted_in s a ↔ is_Some (local_get s a k).
Proof.
  unfold opted_in, local_get.
  destruct (app_local s !! a); cbn; split; intros [x H]; eauto; discriminate.
Qed.

Lemma usr_withdrawal_guard c m :
  and_all [
        (Txn.type_enum == TxnType.ApplicationCall)%teal;
        (Global.group_size == Int 1)%teal;
        (Txn.group_index == Int 0)%teal;
        (Txn.rekey_to == Global.zero_address)%teal;
        (Txn.application_args_length == Int 2)%teal;
        (Txn.assets_length == Int 1)%teal;
        App.optedIn Txn.sender Global.current_application_id;
        (Txn.assets 0 == App.globalGet vault_asset)%teal;
        (Btoi (Txn.application_args 1) > Int 0)%teal;
        (Btoi (Txn.application_args 1) <=
           App.localGet Txn.sender deposit_balance)%teal;
        (Txn.fee >= Global.min_txn_fee * Int 2)%teal
      ] c m = Some true ↔
  ∃ a b id, withdrawal_pre (ctx_ledger c) (ctx_txn c) (m_app m) a b id.
Proof.
  rewrite and_all_true, !Forall_cons, Forall_nil. holds_simpl.
  rewrite !eval_btoi_arg, !fmap_Uint_as_uint.
  unfold withdrawal_pre, withdrawal_amount, depositBalance.
  split.
  - intros (Ht & Hgs & Hgi & Hrk & Hargs & Hlen & Hopt & (v & Hv1 & [= <-]) &
            (a & z & Ha & [= <-] & Hpos) & (a' & b & Ha' & Hb & Hle) &
            (f & y & [= <-] & Hy & Hfee) & _).
    rewrite Ha in Ha'. injection Ha' as <-.
    destruct (tx_assets (ctx_txn c) !! 0%nat) as [id|] eqn:Hid;
      [|discriminate]. cbn in Hv1. injection Hv1 as Hv1.
    destruct (local_get _ _ _) as [[b'|?]|]; cbn in Hb; try discriminate.
    injection Hb as ->.
    destruct (Z.leb_spec (g_min_txn_fee (ctx_ledger c) * 2) uint64_max);
      cbn in Hy; [|discriminate]. injection Hy as <-.
    exists a, b, id. repeat split; try done.
    + lia.
    + apply singleton_list. done.
  - intros (a & b & id & Ht & Hgs & Hgi & Hrk & Hargs & Hassets & Hg & Ha &
            Hb & Hpos & Hle & Hmax & Hfee).
    rewrite Hassets, Ha, Hb, Hg. cbn.
    destruct (Z.leb_spec (g_min_txn_fee (ctx_ledger c) * 2) uint64_max);
      [|lia]. cbn.
    repeat split; try done.
    + lia.
    + apply (opted_in_local_get _ _ "balance"). rewrite Hb. eauto.
    + eauto.
    + eauto 6.
    + eauto 6.
    + eauto 6.
Qed.

Lemma perform_axfer assets H i :
  itxn_type_enum i = type_code axfer →
  perform assets H i = asset_transfer assets H i.
Proof. intros E. unfold perform. rewrite E. reflexivity. Qed.

Lemma usr_withdrawal_exit c m v m' :
  m_pending m = None → m_holdings m = g_holdings (ctx_ledger c) →
  usr_withdrawal c m = Exit v m' ↔
  ∃ a b id H,
    withdrawal_pre (ctx_ledger c) (ctx_txn c) (m_app m) a b id ∧
    asset_transfer (g_assets (ctx_ledger c)) (g_holdings (ctx_ledger c))
      (withdrawal_itxn (ctx_ledger c) (ctx_txn c) a id) = Some H ∧
    v = 1 ∧
    m' = {| m_app := local_put (m_app m) (tx_sender (ctx_txn c)) "balance"
                       (Uint (b - a));
            m_scratch := <[slot_temp := Uint b]> (m_scratch m);
            m_pending := None;
            m_submitted :=
              m_submitted m ++
              [withdrawal_itxn (ctx_ledger c) (ctx_txn c) a id];
            m_holdings := H |}.
Proof.
  intros Hpend Hhold. pose proof (usr_withdrawal_guard c m) as HG.
  unfold usr_withdrawal. cbv zeta. rewrite Seq_cons, Assert_And.
  destruct (and_all _ c m) as [[]|].
  2,3: split; [discriminate |
               intros (a & b & id & H & Hp & _);
               assert (Hf : @None bool = Some true ∨ Some false = Some true)
                 by (first [left; apply HG; eauto | right; apply HG; eauto]);
               destruct Hf; discriminate].
  destruct HG as [HG _]. destruct (HG eq_refl) as (a & b & id & Hpre).
  pose proof Hpre as (Ht & Hgs & Hgi & Hrk & Hargs & Hassets & Hg & Ha &
                      Hb & Hpos & Hle & Hmax & Hfee).
  assert (Ho : opted_in (m_app m) (tx_sender (ctx_txn c))).
  { apply (opted_in_local_get _ _ "balance"). unfold depositBalance in Hb.
    rewrite Hb. eauto. }
  unfold withdrawal_amount, depositBalance in Ha, Hb.
  rewrite !Seq_cons. stmt_eval. rewrite Hb. cbn.
  rewrite bool_decide_eq_true_2 by exact Ho.
  rewrite lookup_insert_eq. cbn.
  rewrite !eval_btoi_arg, Ha. cbn.
  destruct (Z.leb_spec a b); [|lia]. cbn. rewrite Hpend. cbn.
  rewrite Hassets. cbn. rewrite Hhold.
  change (perform (g_assets (ctx_ledger c)) (g_holdings (ctx_ledger c)) _)
    with (asset_transfer (g_assets (ctx_ledger c)) (g_holdings (ctx_ledger c))
            (withdrawal_itxn (ctx_ledger c) (ctx_txn c) a id)).
  assert (Hsame : ∀ a' b' id',
            withdrawal_pre (ctx_ledger c) (ctx_txn c) (m_app m) a' b' id' →
            a' = a ∧ b' = b ∧ id' = id).
  { intros a' b' id' (_ & _ & _ & _ & _ & Hassets' & _ & Ha' & Hb' & _).
    unfold withdrawal_amount, depositBalance in Ha', Hb'.
    rewrite Hassets in Hassets'. rewrite Ha in Ha'. rewrite Hb in Hb'.
    simplify_eq. done. }
  destruct (asset_transfer _ _ _) as [H1|] eqn:Htr.
  - cbn. split.
    + intros [= <- <-]. exists a, b, id, H1. done.
    + intros (a' & b' & id' & H' & Hpre' & Htr' & -> & ->).
      destruct (Hsame _ _ _ Hpre') as (-> & -> & ->).
      pose proof (eq_trans (eq_sym Htr) Htr') as [= ->]. reflexivity.
  - cbn. split; [discriminate|].
    intros (a' & b' & id' & H' & Hpre' & Htr' & _).
    destruct (Hsame _ _ _ Hpre') as (-> & -> & ->).
    pose proof (eq_trans (eq_sym Htr) Htr') as [=].
Qed.

Lemma bool_to_Z_0 b : bool_to_Z b = 0 ↔ b = false.
Proof. destruct b; cbn; split; (discriminate || reflexivity). Qed.

(** The account opt-in never completes: its assertion needs a sender that
    is not opted in, and the write that follows needs one that is. *)
Lemma usr_opt_in_fails c m : usr_opt_in c m = Panic.
Proof.
  unfold usr_opt_in. rewrite Seq_cons, Assert_And.
  match goal with
  | |- context [and_all ?l c m] =>
      assert (HG : and_all l c m = Some true →
                   ¬ opted_in (m_app m) (tx_sender (ctx_txn c)))
  end.
  { rewrite and_all_true, !Forall_cons, Forall_nil. holds_simpl.
    rewrite bool_to_Z_0, ?Z.eqb_refl, ?andb_true_l, bool_decide_eq_false.
    tauto. }
  destruct (and_all _ c m) as [[]|]; try reflexivity.
  rewrite Seq_cons. unfold deposit_balance.
  rewrite localPut_not_opted_in by (apply HG; reflexivity). reflexivity.
Qed.

Lemma mul2_uint (x f : Z) :
  (∃ a y, Some f = Some a ∧
          (if x * 2 <=? uint64_max then Some (Uint (x * 2)) else None)
          ≫= as_uint = Some y ∧ y <= a) ↔
  x * 2 <= uint64_max ∧ x * 2 <= f.
Proof.
  destruct (Z.leb_spec (x * 2) uint64_max); cbn.
  - rewrite ex_some_rel. tauto.
  - split; [intros (a & y & _ & [=] & _) | lia].
Qed.

Lemma contract_opt_in_asset_guard (asset_id : Expr) c m :
  and_all [
        (Txn.type_enum == TxnType.ApplicationCall)%teal;
        (Global.group_size == Int 1)%teal;
        (Txn.group_index == Int 0)%teal;
        (Txn.rekey_to == Global.zero_address)%teal;
        (Txn.assets_length == Int 1)%teal;
        (Txn.assets 0 == asset_id)%teal;
        (hasValue asset_opt_in_check == Int 0)%teal;
        (Txn.sender == App.globalGet creator)%teal;
        (Txn.fee >= Global.min_txn_fee * Int 2)%teal
      ] c m = Some true ↔
  tx_type_enum (ctx_txn c) = appl ∧ g_group_size (ctx_ledger c) = 1 ∧
  tx_group_index (ctx_txn c) = 0 ∧ tx_rekey_to (ctx_txn c) = zero_address ∧
  (∃ id, tx_assets (ctx_txn c) = [id] ∧ asset_id c m = Some (Uint id)) ∧
  hasValue asset_opt_in_check c m = Some (Uint 0) ∧
  global_get (m_app m) "creator" = Bytes (tx_sender (ctx_txn c)) ∧
  g_min_txn_fee (ctx_ledger c) * 2 <= uint64_max ∧
  g_min_txn_fee (ctx_ledger c) * 2 <= tx_fee (ctx_txn c).
Proof.
  rewrite and_all_true, !Forall_cons, Forall_nil. holds_simpl.
  rewrite mul2_uint. split.
  - intros (Ht & Hgs & Hgi & Hrk & Hlen & (w & Hw & Hid) & (w' & Hh & [= <-]) &
            Hc & Hfee & _).
    destruct (tx_assets (ctx_txn c) !! 0%nat) as [id|] eqn:Hid0;
      [|discriminate]. cbn in Hw. injection Hw as <-.
    repeat split; try done; try tauto. exists id. split; [|done].
    apply singleton_list. done.
  - intros (Ht & Hgs & Hgi & Hrk & (id & Hassets & Hid) & Hh & Hc & Hfee).
    rewrite Hassets. cbn. repeat split; try done; try tauto; eauto.
Qed.

Lemma mv_run_asset_opt_in_check c m :
  mv_run asset_opt_in_check c m =
  match tx_assets (ctx_txn c) !! 0%nat with
  | Some id =>
      let h := m_holdings m
                 (g_current_application_address (ctx_ledger c)) !! id in
      Next (set_scratch
              (<[slot_has_value := Uint (bool_to_Z (bool_decide (is_Some h)))]>
                 (<[slot_value := Uint (default 0 (h_amount <$> h))]>
                    (m_scratch m))) m)
  | None => Panic
  end.
Proof. reflexivity. Qed.

(** The transfer of 0 from an account to itself that opts it into an
    asset it does not hold. *)
Lemma asset_transfer_opt_in assets (H : Holdings) a id fee :
  H a !! id = None →
  asset_transfer assets H
    {| itxn_sender := a; itxn_type_enum := type_code axfer;
       itxn_asset_receiver := a; itxn_asset_amount := 0; itxn_fee := fee;
       itxn_xfer_asset := id |}
  = frozen ← assets !! id;
    Some (set_holding H a id {| h_amount := 0; h_frozen := frozen |}).
Proof.
  intros Hh. unfold asset_transfer, allocate_holding. cbn.
  rewrite bool_decide_eq_true_2 by reflexivity. rewrite Hh.
  destruct (assets !! id); reflexivity.
Qed.

Lemma contract_opt_in_asset_exit c m v m' :
  m_pending m = None → m_holdings m = g_holdings (ctx_ledger c) →
  contract_opt_in_asset (App.globalGet vault_asset) c m = Exit v m' ↔
  ∃ id frozen,
    asset_optin_pre (ctx_ledger c) (ctx_txn c) (m_app m) id ∧
    g_assets (ctx_ledger c) !! id = Some frozen ∧ v = 1 ∧
    m' = {| m_app := m_app m;
            m_scratch := <[slot_has_value := Uint 0]>
                           (<[slot_value := Uint 0]>
                              (<[slot_asset_id := Uint id]> (m_scratch m)));
            m_pending := None;
            m_submitted := m_submitted m ++
                           [asset_optin_itxn (ctx_ledger c) id];
            m_holdings :=
              set_holding (g_holdings (ctx_ledger c))
                (g_current_application_address (ctx_ledger c)) id
                {| h_amount := 0; h_frozen := frozen |} |}.
Proof.
  intros Hpend Hhold.
  unfold contract_opt_in_asset, Subroutine1, contract_opt_in_asset_body.
  rewrite Seq_cons.
  change (ScratchVar.store slot_asset_id (App.globalGet vault_asset) c m)
    with (Next (set_scratch
                  (<[slot_asset_id := global_get (m_app m) "m_asset"]>
                     (m_scratch m)) m)).
  cbn [Seq]. rewrite mv_run_asset_opt_in_check.
  destruct (tx_assets (ctx_txn c) !! 0%nat) as [id0|] eqn:Hid0.
  2: { split; [discriminate|].
       intros (id & fr & (_ & _ & _ & _ & Hassets & _) & _).
       rewrite Hassets in Hid0. discriminate. }
  cbv zeta. cbn [m_holdings set_scratch]. rewrite Hhold.
  set (h := g_holdings _ _ !! id0).
  set (M := set_scratch _ (set_scratch _ m)). cbv beta iota.
  rewrite Assert_And.
  pose proof (contract_opt_in_asset_guard (ScratchVar.load slot_asset_id) c M)
    as HG.
  assert (Hload : ScratchVar.load slot_asset_id c M
                  = Some (global_get (m_app m) "m_asset")).
  { unfold ScratchVar.load, M. cbn [m_scratch set_scratch].
    rewrite !lookup_insert_ne by discriminate.
    rewrite lookup_insert_eq. reflexivity. }
  assert (Hhas : hasValue asset_opt_in_check c M
                 = Some (Uint (bool_to_Z (bool_decide (is_Some h))))).
  { unfold asset_opt_in_check, M.
    cbn [hasValue AssetHolding.balance]. unfold ScratchVar.load.
    cbn [m_scratch set_scratch].
    rewrite lookup_insert_eq. reflexivity. }
  rewrite Hload, Hhas in HG. clear Hload Hhas.
  assert (Hh0 : bool_to_Z (bool_decide (is_Some h)) = 0 ↔ h = None).
  { destruct h; cbn; split; (done || discriminate). }
  destruct (and_all _ c M) as [[]|].
  2,3: split; [discriminate |
               intros (id & fr & (Ht & Hgs & Hgi & Hrk & Hassets & Hg & Hho &
                             Hex & Hc & Hfee) & _);
               rewrite Hassets in Hid0; injection Hid0 as ->;
               assert (Hf : @None bool = Some true ∨ Some false = Some true)
                 by (first [left; apply HG | right; apply HG];
                     repeat split; try done; try tauto;
                     [exists id0; split; [done | congruence]
                     | do 2 f_equal; apply Hh0; done]);
               destruct Hf; discriminate].
  destruct HG as [HG _].
  destruct (HG eq_refl) as (Ht & Hgs & Hgi & Hrk & (id & Hassets & [= Hg]) &
                            [= Hho] & Hc & Hfee).
  rewrite Hassets in Hid0. injection Hid0 as ->.
  apply Hh0 in Hho. clear HG Hh0.
  assert (HM : m_pending M = None ∧ m_holdings M = g_holdings (ctx_ledger c)
               ∧ m_app M = m_app m ∧ m_submitted M = m_submitted m).
  { subst M. cbn. auto. }
  destruct HM as (HMp & HMh & HMa & HMs).
  cbn [m_app set_scratch] in Hc.
  cbv beta iota.
  unfold InnerTxnBuilder.Begin at 1. rewrite HMp.
  unfold InnerTxnBuilder.SetFields at 1. cbn [m_pending set_pending set_fields].
  assert (Hl : ScratchVar.load slot_asset_id c
                 (set_pending
                    (Some
                       {| itxn_sender :=
                            g_current_application_address (ctx_ledger c);
                          itxn_type_enum := 0;
                          itxn_asset_receiver := zero_address;
                          itxn_asset_amount := 0;
                          itxn_fee := g_min_txn_fee (ctx_ledger c);
                          itxn_xfer_asset := 0 |}) M)
               = Some (Uint id0)).
  { unfold ScratchVar.load, M. cbn [m_scratch set_scratch set_pending].
    rewrite !lookup_insert_ne by discriminate.
    rewrite lookup_insert_eq, Hg. reflexivity. }
  rewrite Hl. teal_eval. cbn [set_field mbind option_bind].
  unfold InnerTxnBuilder.Submit at 1.
  cbn [m_pending set_pending m_holdings]. rewrite HMh.
  change (perform (g_assets (ctx_ledger c)) (g_holdings (ctx_ledger c)) _)
    with (asset_transfer (g_assets (ctx_ledger c)) (g_holdings (ctx_ledger c))
            (asset_optin_itxn (ctx_ledger c) id0)).
  unfold asset_optin_itxn at 1. rewrite asset_transfer_opt_in by exact Hho.
  destruct (g_assets (ctx_ledger c) !! id0) as [fr|] eqn:Hex.
  - cbn. subst M. cbn. fold h. rewrite Hho. cbn. split.
    + intros [= <- <-]. exists id0, fr. unfold asset_optin_pre. fold h.
      repeat split; try done; try tauto. rewrite Hg. reflexivity.
    + intros (id & fr' & (_ & _ & _ & _ & Hassets' & _) & Hfr & -> & ->).
      rewrite Hassets in Hassets'. simplify_eq. rewrite Hg. reflexivity.
  - cbn. split; [discriminate|].
    intros (id & fr' & (_ & _ & _ & _ & Hassets' & _) & Hfr & _).
    rewrite Hassets in Hassets'. simplify_eq.
Qed.

(** Creation writes the global store only. *)
Lemma handle_creation_exit c m v m' :
  handle_creation c m = Exit v m' →
  v = 1 ∧ app_local (m_app m') = app_local (m_app m) ∧
  m_submitted m' = m_submitted m.
Proof.
  unfold handle_creation. rewrite Seq_cons, Assert_And.
  destruct (and_all _ c m) as [[]|]; try discriminate.
  rewrite !Seq_cons. stmt_eval.
  cbn [Seq]. repeat case_match; try discriminate.
  intros [= <- <-]. simplify_eq. cbn. auto.
Qed.

Lemma triple_list {A} (l : list A) :
  Z.of_nat (length l) = 3 ↔ ∃ x y z, l = [x; y; z].
Proof.
  split.
  - destruct l as [|x [|y [|z [|w l]]]]; cbn [length]; try lia. eauto.
  - intros (x & y & z & ->). reflexivity.
Qed.

Lemma handle_creation_exit_iff c m v m' :
  handle_creation c m = Exit v m' ↔
  ∃ name a1 a2 x y id,
    tx_application_args (ctx_txn c) = [name; a1; a2] ∧
    btoi a1 = Some x ∧ btoi a2 = Some y ∧
    tx_assets (ctx_txn c) = [id] ∧ v = 1 ∧
    m' = set_app
           (global_put
              (global_put
                 (global_put
                    (global_put
                       (global_put
                          (global_put (m_app m) "creator"
                             (Bytes (tx_sender (ctx_txn c))))
                          "city" (Bytes name))
                       "max" (Uint x))
                    "min" (Uint y))
                 "m_asset" (Uint id))
              "s_date" (Uint (g_latest_timestamp (ctx_ledger c)))) m.
Proof.
  unfold handle_creation. rewrite Seq_cons, Assert_And.
  match goal with
  | |- context [and_all ?l c m] =>
      assert (HG : and_all l c m = Some true ↔
                   (∃ name a1 a2,
                      tx_application_args (ctx_txn c) = [name; a1; a2]) ∧
                   ∃ id, tx_assets (ctx_txn c) = [id])
  end.
  { rewrite and_all_true, !Forall_cons, Forall_nil. holds_simpl.
    rewrite triple_list. split.
    - intros (Hargs & Hassets & _). split; [exact Hargs|].
      destruct (tx_assets (ctx_txn c)) as [|id [|? ?]]; cbn in Hassets;
        try lia. eauto.
    - intros [Hargs [id ->]]. done. }
  destruct (and_all _ c m) as [[]|].
  2,3: split; [discriminate |
               intros (name & a1 & a2 & x & y & id & Hargs & _ & _ & Hassets & _);
               assert (Hf : @None bool = Some true ∨ Some false = Some true)
                 by (first [left; apply HG | right; apply HG]; eauto 10);
               destruct Hf; discriminate].
  destruct HG as [HG _].
  destruct (HG eq_refl) as [(name & a1 & a2 & Hargs) (id & Hassets)].
  rewrite !Seq_cons. stmt_eval. cbn [Seq]. rewrite Hargs, Hassets. cbn.
  destruct (btoi a1) as [x|] eqn:Hx; cbn.
  2: { split; [discriminate|].
       intros (? & ? & ? & ? & ? & ? & [= <- <- <-] & Hx' & _).
       rewrite Hx in Hx'. discriminate. }
  destruct (btoi a2) as [y|] eqn:Hy; cbn.
  2: { split; [discriminate|].
       intros (? & ? & ? & ? & ? & ? & [= <- <- <-] & _ & Hy' & _).
       rewrite Hy in Hy'. discriminate. }
  split.
  - intros [= <- <-]. exists name, a1, a2, x, y, id. done.
  - intros (? & ? & ? & ? & ? & ? & [= <- <- <-] & Hx' & Hy' & [= <-] & -> & ->).
    rewrite Hx in Hx'. rewrite Hy in Hy'. simplify_eq. reflexivity.
Qed.

(** No handler falls through to the [Reject] that follows it in
    [handle_optin] and [handle_noop]. *)
Lemma Seq_Approve_last l c m m' : Seq (l ++ [Approve]) c m ≠ Next m'.
Proof.
  revert m. induction l as [|s l IH]; intros m; cbn [app Seq].
  - discriminate.
  - destruct (s c m); [apply IH | discriminate | discriminate].
Qed.

Lemma Seq_Next_last l c m m' : Seq l c m = Next m' → last l ≠ Some Approve.
Proof.
  intros H Hl. apply last_Some in Hl as [l' ->].
  exact (Seq_Approve_last l' c m m' H).
Qed.

Lemma handler_not_Next o c m m' : handler o c m ≠ Next m'.
Proof.
  destruct o as [[]|]; cbn [handler]; intros H.
  - apply Seq_Next_last in H. apply H. reflexivity.
  - unfold contract_opt_in_asset, Subroutine1 in H. cbn [Seq] in H.
    destruct (ScratchVar.store _ _ c m); try discriminate.
    unfold contract_opt_in_asset_body in H.
    destruct (Seq _ c m0) eqn:E; try discriminate.
    apply Seq_Next_last in E. apply E. reflexivity.
  - apply Seq_Next_last in H. apply H. reflexivity.
  - apply Seq_Next_last in H. apply H. reflexivity.
  - apply Seq_Next_last in H. apply H. reflexivity.
  - discriminate.
Qed.

Lemma handler_exit_one o c m v m' :
  m_pending m = None → m_holdings m = g_holdings (ctx_ledger c) →
  handler o c m = Exit v m' → v = 1.
Proof.
  intros Hp Hh. destruct o as [[]|]; cbn [handler]; intros H.
  - apply handle_creation_exit_iff in H
      as (? & ? & ? & ? & ? & ? & _ & _ & _ & _ & -> & _). reflexivity.
  - apply contract_opt_in_asset_exit in H as (? & ? & _ & _ & -> & _);
      [reflexivity | exact Hp | exact Hh].
  - rewrite usr_opt_in_fails in H. discriminate.
  - apply usr_deposit_exit in H as (_ & ? & _ & _ & -> & _). reflexivity.
  - apply usr_withdrawal_exit in H as (? & ? & ? & ? & _ & _ & -> & _);
      [reflexivity | exact Hp | exact Hh].
  - discriminate.
Qed.

(** ** One call *)

(** The program does what the handler it routes to does, on the state
    the ledger has prepared. *)
Lemma program_handler G T s :
  approval_program G T s =
  match before_program T s with
  | Some s0 =>
      handler (dispatch T) {| ctx_ledger := G; ctx_txn := T |} (start G s0)
  | None => Panic
  end.
Proof.
  unfold approval_program. destruct (before_program T s) as [s0|]; [|done].
  rewrite program_dispatch. cbn [ctx_txn].
  pose proof (handler_not_Next (dispatch T)
                {| ctx_ledger := G; ctx_txn := T |} (start G s0)) as Hn.
  destruct (dispatch T) as [[]|]; cbn [handler Seq] in *; try reflexivity.
  all: match goal with
       | |- match ?h with _ => _ end = _ => destruct h as [m1|v m1|]
       end;
    [exfalso; eapply Hn; reflexivity | reflexivity | reflexivity].
Qed.

Lemma call_approved G T s :
  approved (call G T s) = true →
  ∃ s0 m,
    before_program T s = Some s0 ∧
    handler (dispatch T) {| ctx_ledger := G; ctx_txn := T |} (start G s0)
    = Exit 1 m ∧
    call G T s = {| approved := true;
                    new_state := after_program T (m_app m);
                    outbound := m_submitted m |}.
Proof.
  unfold call. rewrite program_handler.
  destruct (before_program T s) as [s0|]; cbn; [|discriminate].
  destruct (handler _ _ _) as [m|v m|] eqn:E; cbn; try discriminate.
  pose proof (handler_exit_one _ {| ctx_ledger := G; ctx_txn := T |}
                (start G s0) _ _ eq_refl eq_refl E) as ->.
  intros _. exists s0, m. done.
Qed.

Lemma call_exit G T s s0 v m :
  before_program T s = Some s0 →
  handler (dispatch T) {| ctx_ledger := G; ctx_txn := T |} (start G s0)
  = Exit v m → v ≠ 0 →
  call G T s = {| approved := true; new_state := after_program T (m_app m);
                  outbound := m_submitted m |}.
Proof.
  intros Hb H Hv. unfold call. rewrite program_handler, Hb, H. cbn.
  destruct (Z.eqb_spec v 0); [contradiction | reflexivity].
Qed.

Lemma call_exit_eq G T s s0 m r :
  before_program T s = Some s0 →
  handler (dispatch T) {| ctx_ledger := G; ctx_txn := T |} (start G s0)
  = Exit 1 m →
  r = {| approved := true; new_state := after_program T (m_app m);
         outbound := m_submitted m |} →
  call G T s = r.
Proof. intros Hb H ->. apply (call_exit _ _ _ s0 1); done. Qed.

(** A rejected call leaves the state as it was and emits nothing. *)
Lemma call_rejected G T s :
  approved (call G T s) = false → call G T s = rejected s.
Proof.
  unfold call. destruct (approved (finish s _)); [discriminate | reflexivity].
Qed.

Lemma call_panic G T s :
  approval_program G T s = Panic → call G T s = rejected s.
Proof. intros H. unfold call. rewrite H. reflexivity. Qed.

(** ** The ledger's part *)

Lemma before_program_application_call T s s0 :
  before_program T s = Some s0 → application_call T.
Proof.
  unfold before_program. destruct (decide (application_call T)).
  - done.
  - rewrite bool_decide_eq_false_2 by done. discriminate.
Qed.


Lemma before_program_NoOp_inv T s s0 :
  tx_on_completion T = NoOpOC → before_program T s = Some s0 → s0 = s.
Proof.
  intros Ho. unfold before_program. rewrite Ho.
  case_bool_decide; congruence.
Qed.

Lemma before_program_OptIn T s :
  application_call T → tx_on_completion T = OptInOC →
  ¬ opted_in s (tx_sender T) →
  before_program T s = Some (allocate s (tx_sender T)).
Proof.
  intros Ha Ho Hn. unfold before_program.
  rewrite bool_decide_eq_true_2 by done. rewrite Ho.
  rewrite bool_decide_eq_false_2 by done. reflexivity.
Qed.

Lemma before_program_OptIn_inv T s s0 :
  tx_on_completion T = OptInOC → before_program T s = Some s0 →
  ¬ opted_in s (tx_sender T) ∧ s0 = allocate s (tx_sender T).
Proof.
  intros Ho. unfold before_program. rewrite Ho.
  repeat case_bool_decide; try discriminate. intros [= <-]. done.
Qed.

(** What the ledger may do to the state before the program runs: nothing,
    or allocate the sender's local store. *)
Lemma before_program_cases T s s0 :
  before_program T s = Some s0 →
  (tx_on_completion T ≠ OptInOC ∧ s0 = s) ∨
  (tx_on_completion T = OptInOC ∧ ¬ opted_in s (tx_sender T) ∧
   s0 = allocate s (tx_sender T)).
Proof.
  intros H. destruct (decide (tx_on_completion T = OptInOC)) as [Ho|Ho].
  - right. split; [done|]. by apply before_program_OptIn_inv.
  - left. split; [done|]. revert H. unfold before_program.
    case_bool_decide; [|discriminate].
    destruct (tx_on_completion T); try done;
      repeat case_match; intros; simplify_eq; done.
Qed.

Lemma dispatch_on_completion T op :
  dispatch T = Some op →
  match op with
  | OpCreation => tx_application_id T = 0
  | OpAssetOptIn | OpAccountOptIn =>
      tx_application_id T ≠ 0 ∧ tx_on_completion T = OptInOC
  | OpDeposit | OpWithdrawal =>
      tx_application_id T ≠ 0 ∧ tx_on_completion T = NoOpOC
  end.
Proof.
  unfold dispatch. destruct (Z.eqb_spec (tx_application_id T) 0).
  - intros [= <-]. done.
  - destruct (tx_on_completion T); try discriminate;
      destruct (tx_application_args T !! 0%nat); try discriminate;
      repeat case_match; intros ?; simplify_eq; done.
Qed.

Lemma global_get_allocate s a k :
  global_get (allocate s a) k = global_get s k.
Proof. reflexivity. Qed.

Lemma asset_optin_pre_allocate G T s a id :
  asset_optin_pre G T (allocate s a) id ↔ asset_optin_pre G T s id.
Proof. reflexivity. Qed.

Lemma after_program_other T s :
  tx_on_completion T ≠ CloseOutOC →
  tx_on_completion T ≠ DeleteApplicationOC →
  after_program T s = s.
Proof. unfold after_program. destruct (tx_on_completion T); done. Qed.

(** ** Each operation as a call *)

(** A deposit request never goes through: the handler wants an asset
    transfer, and the ledger runs the program on application calls only. *)
Lemma call_deposit_panic G T s :
  dispatch T = Some OpDeposit → approval_program G T s = Panic.
Proof.
  intros Hd. rewrite program_handler.
  destruct (before_program T s) as [s0|] eqn:Hb; [|reflexivity].
  apply before_program_application_call in Hb as (Ht & _).
  rewrite Hd. cbn [handler].
  destruct (usr_deposit _ _) as [m|v m|] eqn:He; try reflexivity.
  - exfalso. exact (handler_not_Next (Some OpDeposit) _ _ _ He).
  - apply usr_deposit_exit in He as ((Ht' & _) & _). cbn in Ht'. congruence.
Qed.

Lemma call_deposit_rejected G T s :
  dispatch T = Some OpDeposit → call G T s = rejected s.
Proof. intros Hd. apply call_panic, call_deposit_panic, Hd. Qed.

(** Nor does an account opt-in. *)
Lemma call_optin_panic G T s :
  dispatch T = Some OpAccountOptIn → approval_program G T s = Panic.
Proof.
  intros Hd. rewrite program_handler.
  destruct (before_program T s) as [s0|]; [|reflexivity].
  rewrite Hd. cbn [handler]. apply usr_opt_in_fails.
Qed.

Lemma call_optin_rejected G T s :
  dispatch T = Some OpAccountOptIn → call G T s = rejected s.
Proof. intros Hd. apply call_panic, call_optin_panic, Hd. Qed.

Lemma call_withdrawal_approved G T s :
  dispatch T = Some OpWithdrawal → approved (call G T s) = true →
  ∃ a b id,
    application_call T ∧ withdrawal_pre G T s a b id ∧ payable G T a id ∧
    call G T s =
    {| approved := true;
       new_state := local_put s (tx_sender T) "balance" (Uint (b - a));
       outbound := [withdrawal_itxn G T a id] |}.
Proof.
  intros Hd Ha.
  destruct (call_approved _ _ _ Ha) as (s0 & m & Hb & He & Hc).
  destruct (dispatch_on_completion _ _ Hd) as [_ Hoc].
  pose proof (before_program_application_call _ _ _ Hb) as Hac.
  apply (before_program_NoOp_inv _ _ _ Hoc) in Hb as ->.
  rewrite Hd in He. cbn [handler] in He.
  apply usr_withdrawal_exit in He as (a & b & id & H & Hpre & Htr & _ & ->);
    [|reflexivity..].
  exists a, b, id. split; [exact Hac|]. split; [exact Hpre|].
  split; [exists H; exact Htr|].
  rewrite Hc. cbn. rewrite after_program_other by (rewrite Hoc; done).
  reflexivity.
Qed.


Lemma call_asset_optin_approved G T s :
  dispatch T = Some OpAssetOptIn → approved (call G T s) = true →
  ∃ id,
    application_call T ∧ ¬ opted_in s (tx_sender T) ∧
    asset_optin_pre G T s id ∧
    call G T s =
    {| approved := true; new_state := allocate s (tx_sender T);
       outbound := [asset_optin_itxn G id] |}.
Proof.
  intros Hd Ha.
  destruct (call_approved _ _ _ Ha) as (s0 & m & Hb & He & Hc).
  destruct (dispatch_on_completion _ _ Hd) as [_ Hoc].
  pose proof (before_program_application_call _ _ _ Hb) as Hac.
  apply (before_program_OptIn_inv _ _ _ Hoc) in Hb as [Hn ->].
  rewrite Hd in He. cbn [handler] in He.
  apply contract_opt_in_asset_exit in He as (id & fr & Hpre & Hfr & _ & ->);
    [|reflexivity..].
  exists id. split; [exact Hac|]. split; [exact Hn|]. split; [exact Hpre|].
  rewrite Hc. cbn. rewrite after_program_other by (rewrite Hoc; done).
  reflexivity.
Qed.

Lemma call_asset_optin_ok G T s id :
  dispatch T = Some OpAssetOptIn → application_call T →
  ¬ opted_in s (tx_sender T) → asset_optin_pre G T s id →
  call G T s =
  {| approved := true; new_state := allocate s (tx_sender T);
     outbound := [asset_optin_itxn G id] |}.
Proof.
  intros Hd Hac Hn Hpre.
  destruct (dispatch_on_completion _ _ Hd) as [_ Hoc].
  assert (Hex : is_Some (g_assets G !! id)) by apply Hpre.
  destruct Hex as [fr Hfr].
  eapply call_exit_eq.
  - apply before_program_OptIn; done.
  - rewrite Hd. cbn [handler].
    apply contract_opt_in_asset_exit; [reflexivity..|].
    exists id, fr. split; [exact Hpre | split; [exact Hfr|]].
    split; reflexivity.
  - cbn. rewrite after_program_other by (rewrite Hoc; done). reflexivity.
Qed.

(** Creation writes the global store; of the local stores the ledger
    allocates the sender's when the creation call is also an opt-in. *)
Lemma call_creation_approved G T s :
  dispatch T = Some OpCreation → approved (call G T s) = true →
  application_call T ∧
  app_local (new_state (call G T s))
  = (if bool_decide (tx_on_completion T = OptInOC)
     then <[tx_sender T := ∅]> (app_local s) else app_local s) ∧
  outbound (call G T s) = [].
Proof.
  intros Hd Ha.
  destruct (call_approved _ _ _ Ha) as (s0 & m & Hb & He & Hc).
  pose proof (before_program_application_call _ _ _ Hb) as Hac.
  pose proof (dispatch_on_completion _ _ Hd) as Hid. cbn in Hid.
  rewrite Hd in He. cbn [handler] in He.
  apply handle_creation_exit in He as (_ & Hl & Hs).
  rewrite Hc. cbn [new_state outbound]. split; [done|]. split; [|done].
  cbn [start m_app] in Hl.
  destruct (before_program_cases _ _ _ Hb) as [[Hoc ->]|(Hoc & Hn & ->)].
  - rewrite bool_decide_eq_false_2 by done.
    unfold after_program. destruct (tx_on_completion T) eqn:E;
      cbn [app_local]; try exact Hl; try done.
    exfalso. revert Hb. unfold before_program.
    rewrite bool_decide_eq_true_2 by done. rewrite E, Hid. cbn. discriminate.
  - rewrite bool_decide_eq_true_2 by done.
    unfold after_program. rewrite Hoc. exact Hl.
Qed.

Lemma call_unrouted_panic G T s :
  dispatch T = None → approval_program G T s = Panic.
Proof.
  intros Hd. rewrite program_handler, Hd. cbn.
  destruct (before_program T s); reflexivity.
Qed.

Lemma call_unrouted G T s : dispatch T = None → call G T s = rejected s.
Proof. intros Hd. apply call_panic, call_unrouted_panic, Hd. Qed.

(** ** Every approved call *)

Lemma dispatch_creation T :
  tx_application_id T = 0 → dispatch T = Some OpCreation.
Proof. unfold dispatch. intros ->. reflexivity. Qed.

Lemma dispatch_not_creation T o :
  dispatch T = Some o → o ≠ OpCreation → tx_application_id T ≠ 0.
Proof.
  intros Hd Ho Hid. rewrite (dispatch_creation T Hid) in Hd. congruence.
Qed.

(** The creation call: the program writes the six global keys on the state
    the ledger has prepared. *)
Lemma call_creation_shape G T s :
  tx_application_id T = 0 → approved (call G T s) = true →
  ∃ name a1 a2 x y id s0,
    tx_application_args T = [name; a1; a2] ∧
    btoi a1 = Some x ∧ btoi a2 = Some y ∧ tx_assets T = [id] ∧
    before_program T s = Some s0 ∧
    call G T s = {| approved := true;
                    new_state :=
                      after_program T (created G T s0 name x y id);
                    outbound := [] |}.
Proof.
  intros Hid Hr. pose proof (dispatch_creation T Hid) as Hd.
  destruct (call_approved _ _ _ Hr) as (s0 & m & Hb & He & Hc).
  rewrite Hd in He. cbn [handler] in He.
  apply handle_creation_exit_iff in He
    as (name & a1 & a2 & x & y & id & Hargs & Hx & Hy & Hassets & _ & ->).
  exists name, a1, a2, x, y, id, s0. done.
Qed.

Lemma call_creation_ok G T s s0 name a1 a2 x y id :
  tx_application_id T = 0 → before_program T s = Some s0 →
  tx_application_args T = [name; a1; a2] →
  btoi a1 = Some x → btoi a2 = Some y → tx_assets T = [id] →
  call G T s = {| approved := true;
                  new_state := after_program T (created G T s0 name x y id);
                  outbound := [] |}.
Proof.
  intros Hid Hb Hargs Hx Hy Hassets.
  pose proof (dispatch_creation T Hid) as Hd.
  eapply call_exit_eq.
  - exact Hb.
  - rewrite Hd. cbn [handler]. apply handle_creation_exit_iff.
    exists name, a1, a2, x, y, id.
    repeat split; [exact Hargs | exact Hx | exact Hy | exact Hassets].
  - reflexivity.
Qed.

(** An approved call is one of three: the creation call, the asset opt-in
    or a withdrawal. *)
Lemma call_approved_cases G T s :
  approved (call G T s) = true →
  (tx_application_id T = 0 ∧
   ∃ name a1 a2 x y id s0,
     tx_application_args T = [name; a1; a2] ∧
     btoi a1 = Some x ∧ btoi a2 = Some y ∧ tx_assets T = [id] ∧
     before_program T s = Some s0 ∧
     call G T s = {| approved := true;
                     new_state :=
                       after_program T (created G T s0 name x y id);
                     outbound := [] |}) ∨
  (dispatch T = Some OpAssetOptIn ∧
   ∃ id, application_call T ∧ ¬ opted_in s (tx_sender T) ∧
         asset_optin_pre G T s id ∧
         call G T s = {| approved := true;
                         new_state := allocate s (tx_sender T);
                         outbound := [asset_optin_itxn G id] |}) ∨
  (dispatch T = Some OpWithdrawal ∧
   ∃ a b id,
     application_call T ∧ withdrawal_pre G T s a b id ∧ payable G T a id ∧
     call G T s =
     {| approved := true;
        new_state := local_put s (tx_sender T) "balance" (Uint (b - a));
        outbound := [withdrawal_itxn G T a id] |}).
Proof.
  intros Happ. destruct (dispatch T) as [[]|] eqn:Hd.
  - left. pose proof (dispatch_on_completion _ _ Hd) as Hid. cbn in Hid.
    split; [exact Hid | exact (call_creation_shape G T s Hid Happ)].
  - right. left. split; [reflexivity|].
    exact (call_asset_optin_approved G T s Hd Happ).
  - rewrite (call_optin_rejected _ _ _ Hd) in Happ. discriminate.
  - rewrite (call_deposit_rejected _ _ _ Hd) in Happ. discriminate.
  - right. right. split; [reflexivity|].
    exact (call_withdrawal_approved G T s Hd Happ).
  - rewrite (call_unrouted _ _ _ Hd) in Happ. discriminate.
Qed.

(** Tactic: split an approved call into its three cases. *)
Ltac approved_cases G T s H :=
  destruct (call_approved_cases G T s H)
    as [(Hid & name & a1 & a2 & x & y & id & s0 & Hargs & Hx & Hy & Hassets
         & Hbefore & Hcall)
       |[(Hd & id & Hac & Hnot & Hpre & Hcall)
        |(Hd & w & b & id & Hac & Hpre & Hpay & Hcall)]].

(** A call writes to no local store but the sender's. *)
Lemma call_local_frame G T s a :
  a ≠ tx_sender T →
  app_local (new_state (call G T s)) !! a = app_local s !! a.
Proof.
  intros Ha. destruct (approved (call G T s)) eqn:Happ;
    [|rewrite (call_rejected _ _ _ Happ); reflexivity].
  destruct (dispatch T) as [[]|] eqn:Hd.
  - destruct (call_creation_approved _ _ _ Hd Happ) as (_ & -> & _).
    case_bool_decide; [|reflexivity].
    rewrite lookup_insert_ne by congruence. reflexivity.
  - destruct (call_asset_optin_approved _ _ _ Hd Happ) as (id & _ & _ & _ & ->).
    cbn. rewrite lookup_insert_ne by congruence. reflexivity.
  - rewrite (call_optin_rejected _ _ _ Hd) in Happ. discriminate.
  - rewrite (call_deposit_rejected _ _ _ Hd) in Happ. discriminate.
  - destruct (call_withdrawal_approved _ _ _ Hd Happ)
      as (w & b & id & _ & _ & _ & ->).
    cbn. rewrite lookup_insert_ne by congruence. reflexivity.
  - rewrite (call_unrouted _ _ _ Hd) in Happ. discriminate.
Qed.

(** A call to the existing application writes no global key. *)
Lemma call_global_frame G T s :
  tx_application_id T ≠ 0 →
  app_global (new_state (call G T s)) = app_global s.
Proof.
  intros Hnz. destruct (approved (call G T s)) eqn:Happ;
    [|rewrite (call_rejected _ _ _ Happ); reflexivity].
  approved_cases G T s Happ; [contradiction | |]; rewrite Hcall; reflexivity.
Qed.

(** ** The transfer a withdrawal submits *)

Lemma set_holding_lookup (H : Holdings) a id h x :
  set_holding H a id h x !! id
  = if bool_decide (x = a) then Some h else H x !! id.
Proof.
  unfold set_holding. case_bool_decide; [|reflexivity].
  apply lookup_insert_eq.
Qed.


(** And only then. *)
Lemma asset_transfer_inv assets (H : Holdings) i :
  0 < itxn_asset_amount i →
  is_Some (asset_transfer assets H i) →
  ∃ hs hr,
    H (itxn_sender i) !! itxn_xfer_asset i = Some hs ∧ h_frozen hs = false ∧
    itxn_asset_amount i <= h_amount hs ∧
    H (itxn_asset_receiver i) !! itxn_xfer_asset i = Some hr ∧
    h_frozen hr = false.
Proof.
  intros Hpos. unfold asset_transfer.
  destruct (Z.eqb_spec (itxn_asset_amount i) 0) as [E|_]; [lia|].
  cbn [andb mbind option_bind]. unfold take_out.
  destruct (Z.eqb_spec (itxn_asset_amount i) 0) as [E|_]; [lia|].
  destruct (H (itxn_sender i) !! itxn_xfer_asset i) as [hs|] eqn:Hs;
    cbn [mbind option_bind]; [|intros [? [=]]].
  destruct (h_frozen hs) eqn:Hfs; cbn [orb]; [intros [? [=]]|].
  destruct (Z.ltb_spec (h_amount hs) (itxn_asset_amount i));
    cbn [mbind option_bind]; [intros [? [=]]|].
  unfold put_in.
  destruct (Z.eqb_spec (itxn_asset_amount i) 0) as [E|_]; [lia|].
  rewrite set_holding_lookup. case_bool_decide as Heq.
  - cbn. intros _. exists hs, hs. rewrite Heq.
    repeat split; try done; lia.
  - destruct (H (itxn_asset_receiver i) !! itxn_xfer_asset i) as [hr|] eqn:Hr;
      cbn; [|intros [? [=]]].
    destruct (h_frozen hr) eqn:Hfr; [intros [? [=]]|].
    intros _. exists hs, hr. repeat split; try done; lia.
Qed.

(** ** Invocations *)

Lemma invoke_clear_state G T s :
  tx_on_completion T = ClearStateOC →
  invoke G T s =
  {| approved := true;
     new_state := {| app_global := app_global s;
                     app_local := delete (tx_sender T) (app_local s) |};
     outbound := [] |}.
Proof.
  intros Ho. unfold invoke. rewrite bool_decide_eq_true_2 by exact Ho.
  reflexivity.
Qed.

Lemma invoke_call G T s :
  tx_on_completion T ≠ ClearStateOC → invoke G T s = call G T s.
Proof.
  intros Ho. unfold invoke. rewrite bool_decide_eq_false_2 by exact Ho.
  reflexivity.
Qed.

(** The approval program refuses a clear-state call. *)
Lemma call_clear_state G T s :
  tx_on_completion T = ClearStateOC → call G T s = rejected s.
Proof.
  intros Ho. apply call_panic. unfold approval_program, before_program.
  rewrite Ho. case_bool_decide; reflexivity.
Qed.

(** ** Conservation *)

Ltac decide_op :=
  repeat match goal with
    | |- context [bool_decide (Some ?x = Some ?y)] =>
        first [ rewrite (bool_decide_eq_true_2 (Some x = Some y)) by done
              | rewrite (bool_decide_eq_false_2 (Some x = Some y))
                  by discriminate ]
    end;
  cbn [andb].

(** No call credits anything. *)
Lemma deposited_zero a G T s : deposited a G T s = 0.
Proof.
  unfold deposited. destruct (approved (call G T s)) eqn:Happ; [|reflexivity].
  cbn [andb]. case_bool_decide as Hd; [|reflexivity].
  rewrite (call_deposit_rejected _ _ _ Hd) in Happ. discriminate.
Qed.

(** One call moves the balance of [a] by what it debits. *)
Lemma call_balance_step a G T s b :
  depositBalance s a = Some (Uint b) → 0 <= b →
  depositBalance (new_state (call G T s)) a
  = Some (Uint (b + deposited a G T s - withdrawn a G T s)) ∧
  0 <= deposited a G T s ∧
  0 <= withdrawn a G T s <= b.
Proof.
  intros Hb Hb0. rewrite deposited_zero. unfold withdrawn.
  assert (Hopt : opted_in s a).
  { apply (opted_in_local_get _ _ "balance").
    unfold depositBalance in Hb. rewrite Hb. eauto. }
  destruct (approved (call G T s)) eqn:Happ; cbn [andb].
  2: { rewrite (call_rejected _ _ _ Happ). unfold rejected. cbn [new_state].
       rewrite Hb. split; [do 2 f_equal; lia | lia]. }
  destruct (decide (tx_sender T = a)) as [E|Hne].
  2: { rewrite (bool_decide_eq_false_2 (tx_sender T = a)) by done.
       rewrite andb_false_r.
       unfold depositBalance, local_get in *.
       rewrite call_local_frame by congruence. rewrite Hb.
       split; [do 2 f_equal; lia | lia]. }
  rewrite (bool_decide_eq_true_2 (tx_sender T = a)) by done.
  rewrite andb_true_r.
  destruct (dispatch T) as [[]|] eqn:Hd.
  - (* creation *)
    destruct (call_creation_approved _ _ _ Hd Happ) as (_ & Hl & _).
    decide_op.
    destruct (call_approved _ _ _ Happ) as (s0 & _ & Hbefore & _).
    destruct (before_program_cases _ _ _ Hbefore) as [[Hoc _]|(_ & Hn & _)];
      [|rewrite E in Hn; contradiction].
    rewrite bool_decide_eq_false_2 in Hl by done.
    unfold depositBalance, local_get in *. rewrite Hl, Hb.
    split; [do 2 f_equal; lia | lia].
  - (* asset opt-in *)
    destruct (call_asset_optin_approved _ _ _ Hd Happ)
      as (id & _ & Hn & _). rewrite E in Hn. contradiction.
  - rewrite (call_optin_rejected _ _ _ Hd) in Happ. discriminate.
  - rewrite (call_deposit_rejected _ _ _ Hd) in Happ. discriminate.
  - (* withdrawal *)
    destruct (call_withdrawal_approved _ _ _ Hd Happ)
      as (w & b' & id & _ & Hpre & _ & ->).
    decide_op. cbn [new_state].
    destruct Hpre as (_ & _ & _ & _ & _ & _ & _ & Hw & Hb' & Hpos & Hle & _).
    unfold depositBalance in *. rewrite E in *.
    rewrite local_get_put_eq, Hw. cbn [default]. unfold Datatypes.id.
    rewrite Hb in Hb'. injection Hb' as <-.
    split; [do 2 f_equal; lia | lia].
  - rewrite (call_unrouted _ _ _ Hd) in Happ. discriminate.
Qed.

(** The same for an invocation, as long as it is not the clear-state call
    of [a] itself. *)
Lemma invoke_balance_step a G T s b :
  depositBalance s a = Some (Uint b) → 0 <= b →
  ¬ (tx_on_completion T = ClearStateOC ∧ tx_sender T = a) →
  depositBalance (new_state (invoke G T s)) a
  = Some (Uint (b + deposited a G T s - withdrawn a G T s)) ∧
  0 <= deposited a G T s ∧
  0 <= withdrawn a G T s <= b.
Proof.
  intros Hb Hb0 Hclear.
  destruct (decide (tx_on_completion T = ClearStateOC)) as [Ho|Ho].
  - rewrite (invoke_clear_state _ _ _ Ho). cbn [new_state].
    unfold deposited, withdrawn. rewrite (call_clear_state _ _ _ Ho).
    cbn [approved rejected andb].
    assert (Hne : tx_sender T ≠ a) by tauto.
    unfold depositBalance, local_get in *. cbn [app_local].
    rewrite lookup_delete_ne by done. rewrite Hb.
    split; [do 2 f_equal; lia | lia].
  - rewrite (invoke_call _ _ _ Ho). apply call_balance_step; done.
Qed.



(** * The properties of the contract *)

(** ** Deposit *)

(** C1. No deposit is ever approved. [usr_deposit] asserts that the
    transaction under evaluation is an asset transfer, and the ledger runs
    the approval program on application calls only; the handler also wants
    a group of one, so the call cannot travel with a transfer either. A
    call routed to the deposit operation therefore fails at the first
    assertion, whatever the state: the sender's balance and timestamp stay
    as they were. *)
Theorem usr_deposit_never_approves G T s :
  dispatch T = Some OpDeposit →
  (∀ m v m', usr_deposit {| ctx_ledger := G; ctx_txn := T |} m = Exit v m' →
             tx_type_enum T = axfer ∧ g_group_size G = 1) ∧
  (∀ s0, before_program T s = Some s0 → tx_type_enum T = appl) ∧
  approval_program G T s = Panic ∧
  call G T s = rejected s ∧
  depositBalance (new_state (call G T s)) (tx_sender T)
  = depositBalance s (tx_sender T) ∧
  depositTimestamp (new_state (call G T s)) (tx_sender T)
  = depositTimestamp s (tx_sender T).
Proof.
  intros Hd. split; [|split].
  - intros m v m' He.
    apply usr_deposit_exit in He as ((Ht & Hgs & _) & _). done.
  - intros s0 Hb. apply before_program_application_call in Hb as [Ht _].
    exact Ht.
  - rewrite (call_deposit_rejected _ _ _ Hd).
    split; [exact (call_deposit_panic _ _ _ Hd) | done].
Qed.

Lemma usr_deposit_never_approves_witness :
  let G := ledger_at 200 {[7 := 0]} in
  let T := deposit_txn "ALICE" in
  let s := vault_state 1000 10 {["ALICE" := account 0 0]} in
  approval_program G T s = Panic ∧
  call G T s = rejected s ∧
  depositBalance (new_state (call G T s)) "ALICE" = Some (Uint 0) ∧
  depositTimestamp (new_state (call G T s)) "ALICE" = Some (Uint 0).
Proof.
  cbv zeta.
  destruct (usr_deposit_never_approves (ledger_at 200 {[7 := 0]})
              (deposit_txn "ALICE")
              (vault_state 1000 10 {["ALICE" := account 0 0]}) eq_refl)
    as (_ & _ & Hp & Hc & Hb & Ht).
  split; [exact Hp | split; [exact Hc | split]].
  - exact (eq_trans Hb eq_refl).
  - exact (eq_trans Ht eq_refl).
Defined.

(** ** Withdrawal *)




(** ** Rejection *)

(** C4. A rejected call leaves the application state, global and local,
    exactly as it was and submits no inner transaction. In particular a
    withdrawal of amount 0, or of more than the sender's balance, is
    rejected. *)
Theorem rejection_leaves_no_trace G T s :
  (approved (call G T s) = false →
   new_state (call G T s) = s ∧ outbound (call G T s) = []) ∧
  (∀ a b,
     dispatch T = Some OpWithdrawal →
     withdrawal_amount T = Some a →
     depositBalance s (tx_sender T) = Some (Uint b) →
     a = 0 ∨ b < a →
     approved (call G T s) = false ∧
     new_state (call G T s) = s ∧ outbound (call G T s) = []).
Proof.
  assert (Hrej : approved (call G T s) = false →
                 new_state (call G T s) = s ∧ outbound (call G T s) = []).
  { intros H. rewrite (call_rejected _ _ _ H). done. }
  split; [exact Hrej|].
  intros a b Hd Ha Hb Hbad.
  assert (Hf : approved (call G T s) = false).
  { destruct (approved (call G T s)) eqn:Happ; [|reflexivity].
    destruct (call_withdrawal_approved _ _ _ Hd Happ)
      as (a' & b' & id & _ & Hpre & _).
    destruct Hpre as (_ & _ & _ & _ & _ & _ & _ & Ha' & Hb' & Hpos & Hle & _).
    rewrite Ha in Ha'. rewrite Hb in Hb'. simplify_eq. lia. }
  split; [exact Hf | exact (Hrej Hf)].
Qed.

Lemma rejection_leaves_no_trace_witness :
  let G := ledger_at 300 {[7 := 500]} in
  let s := vault_state 1000 10 {["ALICE" := account 500 100]} in
  (approved (call G (withdrawal_txn "ALICE" bytes_600) s) = false ∧
   new_state (call G (withdrawal_txn "ALICE" bytes_600) s) = s ∧
   outbound (call G (withdrawal_txn "ALICE" bytes_600) s) = []) ∧
  (approved (call G (withdrawal_txn "ALICE" bytes_0) s) = false ∧
   new_state (call G (withdrawal_txn "ALICE" bytes_0) s) = s ∧
   outbound (call G (withdrawal_txn "ALICE" bytes_0) s) = []).
Proof.
  cbv zeta. split.
  - apply (proj2 (rejection_leaves_no_trace (ledger_at 300 {[7 := 500]})
                    (withdrawal_txn "ALICE" bytes_600)
                    (vault_state 1000 10 {["ALICE" := account 500 100]}))
             600 500); first [reflexivity | right; reflexivity].
  - apply (proj2 (rejection_leaves_no_trace (ledger_at 300 {[7 := 500]})
                    (withdrawal_txn "ALICE" bytes_0)
                    (vault_state 1000 10 {["ALICE" := account 500 100]}))
             0 500); first [reflexivity | left; reflexivity].
Defined.

(** ** Opting in *)

(** C5 as stated has an approved asset opt-in change no local state, and
    takes the conditions it lists to be enough. The asset opt-in is an
    [OptIn] call: the ledger opts its sender, the creator, into the
    application, so the creator has a local store after the call and had
    none before; and when the creator is opted in already, the ledger
    refuses the call although every listed condition holds. *)
Lemma contract_opt_in_asset_counterexample :
  let G := ledger_at 150 ∅ in
  let T := call_txn "CREATOR" OptInOC 2000 ["contract_opt_in_vault_asset"] in
  let s := vault_state 1000 10 ∅ in
  let s' := vault_state 1000 10 {["CREATOR" := ∅]} in
  dispatch T = Some OpAssetOptIn ∧ tx_type_enum T = appl ∧
  g_group_size G = 1 ∧ tx_group_index T = 0 ∧
  tx_rekey_to T = zero_address ∧ tx_assets T = [7] ∧
  global_get s "m_asset" = Uint 7 ∧ global_get s' "m_asset" = Uint 7 ∧
  g_holdings G (g_current_application_address G) !! 7 = None ∧
  global_get s "creator" = Bytes (tx_sender T) ∧
  global_get s' "creator" = Bytes (tx_sender T) ∧
  2 * g_min_txn_fee G <= tx_fee T ∧
  approved (call G T s) = true ∧
  app_local s !! "CREATOR" = None ∧
  app_local (new_state (call G T s)) !! "CREATOR" = Some ∅ ∧
  approved (call G T s') = false.
Proof.
  cbv zeta. repeat split; try reflexivity; try (vm_compute; congruence).
Qed.

(** C5. A call routed to the asset opt-in operation is approved exactly
    when it is an application call, in a group of one, without rekey, that
    references exactly one asset, the vault asset, which exists and of
    which the vault's address has no holding on the ledger, is sent by the
    creator, pays at least twice the minimum fee, and its sender is not
    opted into the application. When approved it submits exactly one inner
    transaction, an asset transfer of amount 0 of that asset from the
    vault's address to itself with fee 0; the global store and the local
    store of every other account are as they were, and the sender is now
    opted in, with an empty local store. (The accounts are taken to hold
    the Algos their minimum balances ask for.) *)
Theorem contract_opt_in_asset_iff G T s :
  dispatch T = Some OpAssetOptIn → uint64 (tx_fee T) →
  (approved (call G T s) = true ↔
   application_call T ∧
   g_group_size G = 1 ∧ tx_group_index T = 0 ∧
   tx_rekey_to T = zero_address ∧
   (∃ id, tx_assets T = [id] ∧ global_get s "m_asset" = Uint id ∧
          g_holdings G (g_current_application_address G) !! id = None ∧
          is_Some (g_assets G !! id)) ∧
   global_get s "creator" = Bytes (tx_sender T) ∧
   2 * g_min_txn_fee G <= tx_fee T ∧
   ¬ opted_in s (tx_sender T)) ∧
  (approved (call G T s) = true →
   app_global (new_state (call G T s)) = app_global s ∧
   (∀ a, a ≠ tx_sender T →
         app_local (new_state (call G T s)) !! a = app_local s !! a) ∧
   app_local (new_state (call G T s)) !! tx_sender T = Some ∅ ∧
   ∃ id, tx_assets T = [id] ∧
         outbound (call G T s) =
         [ {| itxn_sender := g_current_application_address G;
              itxn_type_enum := type_code axfer;
              itxn_asset_receiver := g_current_application_address G;
              itxn_asset_amount := 0;
              itxn_fee := 0;
              itxn_xfer_asset := id |} ]).
Proof.
  intros Hd [_ Hfee64]. split; [split|].
  - intros Happ.
    destruct (call_asset_optin_approved _ _ _ Hd Happ)
      as (id & Hac & Hn & Hpre & _).
    destruct Hpre as (Ht & Hgs & Hgi & Hrk & Hassets & Hasset & Hhold & Hex &
                      Hc & _ & Hfee).
    repeat split; try done; try apply Hac; [eauto | lia].
  - intros (Hac & Hgs & Hgi & Hrk & (id & Hassets & Hasset & Hhold & Hex) &
            Hc & Hfee & Hn).
    rewrite (call_asset_optin_ok G T s id Hd Hac Hn); [reflexivity|].
    unfold asset_optin_pre. destruct Hac as [Ht _].
    repeat split; try done; lia.
  - intros Happ.
    destruct (call_asset_optin_approved _ _ _ Hd Happ)
      as (id & _ & _ & Hpre & ->).
    cbn [new_state outbound allocate app_global app_local].
    split; [reflexivity|]. split; [|split].
    + intros a Ha. rewrite lookup_insert_ne by congruence. reflexivity.
    + apply lookup_insert_eq.
    + exists id. split; [apply Hpre | reflexivity].
Qed.

Lemma contract_opt_in_asset_iff_witness :
  let G := ledger_at 150 ∅ in
  let T := call_txn "CREATOR" OptInOC 2000 ["contract_opt_in_vault_asset"] in
  let s := vault_state 1000 10 ∅ in
  approved (call G T s) = true ∧
  app_global (new_state (call G T s)) = app_global s ∧
  app_local (new_state (call G T s)) !! "CREATOR" = Some ∅ ∧
  ∃ id, tx_assets T = [id] ∧
        outbound (call G T s) =
        [ {| itxn_sender := "VAULT"; itxn_type_enum := 4;
             itxn_asset_receiver := "VAULT"; itxn_asset_amount := 0;
             itxn_fee := 0; itxn_xfer_asset := id |} ].
Proof.
  cbv zeta.
  destruct (contract_opt_in_asset_iff (ledger_at 150 ∅)
              (call_txn "CREATOR" OptInOC 2000 ["contract_opt_in_vault_asset"])
              (vault_state 1000 10 ∅) eq_refl)
    as [Hiff Heff].
  - vm_compute. split; congruence.
  - assert (Happ : approved
                     (call (ledger_at 150 ∅)
                        (call_txn "CREATOR" OptInOC 2000
                           ["contract_opt_in_vault_asset"])
                        (vault_state 1000 10 ∅)) = true).
    { apply Hiff. split; [repeat split; reflexivity|].
      do 3 (split; [reflexivity|]). split; [|split; [reflexivity|split]].
      - exists 7. repeat split; try reflexivity. exists false. reflexivity.
      - vm_compute. congruence.
      - vm_compute. intros [x Hx]. discriminate. }
    destruct (Heff Happ) as (Hg & _ & Hl & Ho).
    split; [exact Happ | split; [exact Hg | split; [exact Hl | exact Ho]]].
Defined.

(** C6. No account opt-in is ever approved. The ledger allocates the
    sender's local store before the program runs on an [OptIn] call, so
    the check of [usr_opt_in] that the sender is not opted in fails; and
    were the store not allocated, the two writes that follow the check
    would fail instead. A call routed to the account opt-in operation is
    rejected whatever the sender, and no account ever gets the balance 0
    and timestamp 0 the handler is meant to record. *)
Theorem usr_opt_in_never_approves G T s :
  dispatch T = Some OpAccountOptIn →
  (∀ c m, usr_opt_in c m = Panic) ∧
  (∀ s0, before_program T s = Some s0 → opted_in s0 (tx_sender T)) ∧
  approval_program G T s = Panic ∧
  call G T s = rejected s ∧
  app_local (new_state (call G T s)) !! tx_sender T
  = app_local s !! tx_sender T.
Proof.
  intros Hd. split; [exact usr_opt_in_fails|]. split.
  - intros s0 Hb. destruct (dispatch_on_completion _ _ Hd) as [_ Hoc].
    apply (before_program_OptIn_inv _ _ _ Hoc) in Hb as [_ ->].
    unfold opted_in, allocate. cbn. rewrite lookup_insert_eq. eauto.
  - rewrite (call_optin_rejected _ _ _ Hd).
    split; [exact (call_optin_panic _ _ _ Hd) | done].
Qed.

Lemma usr_opt_in_never_approves_witness :
  let G := ledger_at 160 {[7 := 0]} in
  let T := call_txn "ALICE" OptInOC 1000 ["usr_opt_in"] in
  let s := vault_state 1000 10 ∅ in
  approval_program G T s = Panic ∧
  call G T s = rejected s ∧
  app_local (new_state (call G T s)) !! "ALICE" = None.
Proof.
  cbv zeta.
  destruct (usr_opt_in_never_approves (ledger_at 160 {[7 := 0]})
              (call_txn "ALICE" OptInOC 1000 ["usr_opt_in"])
              (vault_state 1000 10 ∅) eq_refl)
    as (_ & _ & Hp & Hc & Hl).
  split; [exact Hp | split; [exact Hc | exact (eq_trans Hl eq_refl)]].
Defined.

(** ** Unsupported categories *)

(** In the dispatcher the test for creation comes first: a call with
    application id 0 is handled as the creation call whatever its
    on-completion action, so such a call is of category [Creation] and of
    no other. *)
Lemma creation_takes_precedence T :
  tx_application_id T = 0 →
  category_of T = Creation ∧ dispatch T = Some OpCreation.
Proof. unfold category_of, dispatch. intros ->. done. Qed.

(** C7. A transaction of category AccountDeregistration, ProgramUpdate or
    ProgramRemoval makes the program fail, whatever its other fields and
    whatever the state: the call is rejected, nothing changes and nothing is
    submitted. *)
Theorem unsupported_categories_rejected G T s :
  category_of T = AccountDeregistration ∨
  category_of T = ProgramUpdate ∨
  category_of T = ProgramRemoval →
  approval_program G T s = Panic ∧ call G T s = rejected s.
Proof.
  intros Hcat.
  assert (Hp : approval_program G T s = Panic).
  { apply call_unrouted_panic.
    unfold category_of, dispatch in *.
    destruct (tx_application_id T =? 0);
      [destruct Hcat as [H|[H|H]]; discriminate|].
    destruct (tx_on_completion T);
      first [reflexivity | destruct Hcat as [H|[H|H]]; discriminate]. }
  split; [exact Hp | exact (call_panic _ _ _ Hp)].
Qed.

Lemma unsupported_categories_rejected_witness :
  let G := ledger_at 300 {[7 := 500]} in
  let s := vault_state 1000 10 {["ALICE" := account 500 100]} in
  (approval_program G (call_txn "ALICE" CloseOutOC 2000 []) s = Panic ∧
   call G (call_txn "ALICE" CloseOutOC 2000 []) s = rejected s) ∧
  (approval_program G (call_txn "CREATOR" UpdateApplicationOC 2000 []) s
   = Panic ∧
   call G (call_txn "CREATOR" UpdateApplicationOC 2000 []) s = rejected s) ∧
  (approval_program G (call_txn "CREATOR" DeleteApplicationOC 2000 []) s
   = Panic ∧
   call G (call_txn "CREATOR" DeleteApplicationOC 2000 []) s = rejected s).
Proof.
  cbv zeta. split; [|split].
  - apply (unsupported_categories_rejected (ledger_at 300 {[7 := 500]})
             (call_txn "ALICE" CloseOutOC 2000 [])
             (vault_state 1000 10 {["ALICE" := account 500 100]})).
    left. reflexivity.
  - apply (unsupported_categories_rejected (ledger_at 300 {[7 := 500]})
             (call_txn "CREATOR" UpdateApplicationOC 2000 [])
             (vault_state 1000 10 {["ALICE" := account 500 100]})).
    right. left. reflexivity.
  - apply (unsupported_categories_rejected (ledger_at 300 {[7 := 500]})
             (call_txn "CREATOR" DeleteApplicationOC 2000 [])
             (vault_state 1000 10 {["ALICE" := account 500 100]})).
    right. right. reflexivity.
Defined.

(** ** What a deposit and a withdrawal leave alone *)



(** ** The clear-state program *)

(** C10. The clear-state program returns 1 on every input, reading and
    writing nothing. A clear-state call is therefore always approved, and
    the sender's local store, whatever balance it holds, is gone after it;
    the global store and the other accounts are as they were. *)
Theorem clear_state_always_approves G T s :
  (∀ m, clear_state_program {| ctx_ledger := G; ctx_txn := T |} m = Exit 1 m) ∧
  approved (clear_state_call G T s) = true ∧
  app_local (new_state (clear_state_call G T s)) !! tx_sender T = None ∧
  depositBalance (new_state (clear_state_call G T s)) (tx_sender T) = None ∧
  (∀ a, a ≠ tx_sender T →
        app_local (new_state (clear_state_call G T s)) !! a
        = app_local s !! a) ∧
  app_global (new_state (clear_state_call G T s)) = app_global s.
Proof.
  split; [reflexivity|].
  unfold clear_state_call, depositBalance, local_get. cbn.
  rewrite lookup_delete_eq. repeat split.
  intros a Ha. rewrite lookup_delete_ne by congruence. reflexivity.
Qed.

(** The same on the running example: ALICE, with balance 500, clears her
    state. *)
Lemma clear_state_example :
  let G := ledger_at 300 {[7 := 500]} in
  let s := vault_state 1000 10 {["ALICE" := account 500 100]} in
  depositBalance s "ALICE" = Some (Uint 500) ∧
  clear_state_call G (call_txn "ALICE" ClearStateOC 1000 []) s
  = {| approved := true; new_state := vault_state 1000 10 ∅; outbound := [] |}.
Proof. cbv zeta. split; vm_compute; reflexivity. Qed.

(** ** Conservation *)




(** ** The thresholds are never read *)

Lemma threshold_equiv_refl s : threshold_equiv s s.
Proof. split; [reflexivity | intros; reflexivity]. Qed.

Lemma machine_equiv_refl m : machine_equiv m m.
Proof. repeat split; try reflexivity. Qed.

Lemma threshold_equiv_global_get s1 s2 k :
  threshold_equiv s1 s2 → k ≠ "max" → k ≠ "min" →
  global_get s1 k = global_get s2 k.
Proof. intros [_ H] H1 H2. unfold global_get. rewrite H; done. Qed.

Lemma threshold_equiv_global_put s1 s2 k v :
  threshold_equiv s1 s2 →
  threshold_equiv (global_put s1 k v) (global_put s2 k v).
Proof.
  intros [Hl Hg]. split; [exact Hl|]. intros k' H1 H2. cbn.
  destruct (decide (k = k')) as [->|Hne].
  - rewrite !lookup_insert_eq. reflexivity.
  - rewrite !lookup_insert_ne by done. auto.
Qed.

Lemma threshold_equiv_local_put s1 s2 a k v :
  threshold_equiv s1 s2 →
  threshold_equiv (local_put s1 a k v) (local_put s2 a k v).
Proof.
  intros [Hl Hg]. split; [|exact Hg]. unfold local_put. cbn.
  rewrite Hl. reflexivity.
Qed.

Lemma threshold_equiv_local_get s1 s2 a k :
  threshold_equiv s1 s2 → local_get s1 a k = local_get s2 a k.
Proof. intros [Hl _]. unfold local_get. rewrite Hl. reflexivity. Qed.

Lemma threshold_equiv_opted_in s1 s2 a :
  threshold_equiv s1 s2 →
  bool_decide (opted_in s1 a) = bool_decide (opted_in s2 a).
Proof. intros [Hl _]. unfold opted_in. rewrite Hl. reflexivity. Qed.

Lemma machine_equiv_set_app m1 m2 a1 a2 :
  threshold_equiv a1 a2 → machine_equiv m1 m2 →
  machine_equiv (set_app a1 m1) (set_app a2 m2).
Proof. intros Ha (_ & Hs & Hp & Hq). split; [exact Ha | done]. Qed.

Lemma machine_equiv_set_scratch m1 m2 sc :
  machine_equiv m1 m2 →
  machine_equiv (set_scratch sc m1) (set_scratch sc m2).
Proof. intros (Ha & Hs & Hp & Hq). split; [exact Ha | done]. Qed.

Lemma machine_equiv_set_pending m1 m2 p :
  machine_equiv m1 m2 →
  machine_equiv (set_pending p m1) (set_pending p m2).
Proof. intros (Ha & Hs & Hp & Hq). split; [exact Ha | done]. Qed.

(** Expressions. *)

Lemma low_const (e : Expr) :
  (∀ c m1 m2, e c m1 = e c m2) → low_expr e.
Proof. intros H c m1 m2 _. apply H. Qed.

Lemma low_eval_uint e c m1 m2 :
  low_expr e → machine_equiv m1 m2 → eval_uint e c m1 = eval_uint e c m2.
Proof. intros H Hm. unfold eval_uint. rewrite (H c m1 m2 Hm). reflexivity. Qed.

Lemma low_eval_bytes e c m1 m2 :
  low_expr e → machine_equiv m1 m2 → eval_bytes e c m1 = eval_bytes e c m2.
Proof. intros H Hm. unfold eval_bytes. rewrite (H c m1 m2 Hm). reflexivity. Qed.

Lemma low_Eq a b : low_expr a → low_expr b → low_expr (a == b)%teal.
Proof.
  intros Ha Hb c m1 m2 Hm. unfold Eq_.
  rewrite (Ha c m1 m2 Hm), (Hb c m1 m2 Hm). reflexivity.
Qed.

Lemma low_Gt a b : low_expr a → low_expr b → low_expr (a > b)%teal.
Proof.
  intros Ha Hb c m1 m2 Hm. unfold Gt_.
  rewrite (low_eval_uint a c m1 m2 Ha Hm), (low_eval_uint b c m1 m2 Hb Hm).
  reflexivity.
Qed.

Lemma low_Ge a b : low_expr a → low_expr b → low_expr (a >= b)%teal.
Proof.
  intros Ha Hb c m1 m2 Hm. unfold Ge_.
  rewrite (low_eval_uint a c m1 m2 Ha Hm), (low_eval_uint b c m1 m2 Hb Hm).
  reflexivity.
Qed.

Lemma low_Le a b : low_expr a → low_expr b → low_expr (a <= b)%teal.
Proof.
  intros Ha Hb c m1 m2 Hm. unfold Le_.
  rewrite (low_eval_uint a c m1 m2 Ha Hm), (low_eval_uint b c m1 m2 Hb Hm).
  reflexivity.
Qed.

Lemma low_Add a b : low_expr a → low_expr b → low_expr (a + b)%teal.
Proof.
  intros Ha Hb c m1 m2 Hm. unfold Add_.
  rewrite (low_eval_uint a c m1 m2 Ha Hm), (low_eval_uint b c m1 m2 Hb Hm).
  reflexivity.
Qed.

Lemma low_Minus a b : low_expr a → low_expr b → low_expr (a - b)%teal.
Proof.
  intros Ha Hb c m1 m2 Hm. unfold Minus_.
  rewrite (low_eval_uint a c m1 m2 Ha Hm), (low_eval_uint b c m1 m2 Hb Hm).
  reflexivity.
Qed.

Lemma low_Mul a b : low_expr a → low_expr b → low_expr (a * b)%teal.
Proof.
  intros Ha Hb c m1 m2 Hm. unfold Mul_.
  rewrite (low_eval_uint a c m1 m2 Ha Hm), (low_eval_uint b c m1 m2 Hb Hm).
  reflexivity.
Qed.

Lemma low_Btoi a : low_expr a → low_expr (Btoi a).
Proof.
  intros Ha c m1 m2 Hm. unfold Btoi.
  rewrite (low_eval_bytes a c m1 m2 Ha Hm). reflexivity.
Qed.

Lemma low_And l : Forall low_expr l → low_expr (And l).
Proof.
  intros Hl c m1 m2 Hm. unfold And.
  assert (H : and_all l c m1 = and_all l c m2).
  { induction Hl as [|e l He _ IH]; cbn [and_all]; [reflexivity|].
    rewrite (low_eval_uint e c m1 m2 He Hm), IH. reflexivity. }
  rewrite H. reflexivity.
Qed.

Lemma low_load slot : low_expr (ScratchVar.load slot).
Proof.
  intros c m1 m2 (_ & Hs & _). unfold ScratchVar.load. rewrite Hs.
  reflexivity.
Qed.

(** A global key other than the thresholds. *)
Lemma low_globalGet k :
  k ≠ "max" → k ≠ "min" → low_expr (App.globalGet (BytesE k)).
Proof.
  intros H1 H2 c m1 m2 (Ha & _). unfold App.globalGet, eval_bytes, BytesE.
  cbn. rewrite (threshold_equiv_global_get _ _ k Ha H1 H2). reflexivity.
Qed.

Lemma low_localGet a k :
  low_expr a → low_expr k → low_expr (App.localGet a k).
Proof.
  intros Ha Hk c m1 m2 Hm. unfold App.localGet.
  rewrite (low_eval_bytes a c m1 m2 Ha Hm), (low_eval_bytes k c m1 m2 Hk Hm).
  destruct (eval_bytes a c m2) as [x|]; [|reflexivity].
  destruct (eval_bytes k c m2) as [y|]; [|reflexivity]. cbn.
  apply threshold_equiv_local_get, Hm.
Qed.

Lemma low_optedIn a i :
  low_expr a → low_expr i → low_expr (App.optedIn a i).
Proof.
  intros Ha Hi c m1 m2 Hm. unfold App.optedIn.
  rewrite (low_eval_bytes a c m1 m2 Ha Hm), (low_eval_uint i c m1 m2 Hi Hm).
  destruct (eval_bytes a c m2) as [x|]; [|reflexivity].
  destruct (eval_uint i c m2) as [y|]; [|reflexivity]. cbn.
  rewrite (threshold_equiv_opted_in _ _ x (proj1 Hm)). reflexivity.
Qed.

(** Statements. *)

Lemma low_Seq l : Forall low_stmt l → low_stmt (Seq l).
Proof.
  induction 1 as [|s l Hs _ IH]; intros c m1 m2 Hm; cbn [Seq].
  - exact Hm.
  - specialize (Hs c m1 m2 Hm).
    destruct (s c m1), (s c m2); cbn in Hs; try contradiction; try exact Hs.
    apply IH, Hs.
Qed.

Lemma low_Assert e : low_expr e → low_stmt (Assert e).
Proof.
  intros He c m1 m2 Hm. unfold Assert.
  rewrite (low_eval_uint e c m1 m2 He Hm).
  destruct (eval_uint e c m2) as [n|]; [|exact I].
  destruct (n =? 0); [exact I | exact Hm].
Qed.

Lemma low_Return e : low_expr e → low_stmt (Return e).
Proof.
  intros He c m1 m2 Hm. unfold Return.
  rewrite (low_eval_uint e c m1 m2 He Hm).
  destruct (eval_uint e c m2) as [n|]; [|exact I]. split; [reflexivity|exact Hm].
Qed.

Lemma low_Err : low_stmt Err.
Proof. intros c m1 m2 _. exact I. Qed.

Lemma low_Cond l :
  Forall (λ b, low_expr b.1 ∧ low_stmt b.2) l → low_stmt (Cond l).
Proof.
  induction 1 as [|[e s] l [He Hs] _ IH]; intros c m1 m2 Hm; cbn [Cond].
  - exact I.
  - cbn in He, Hs. rewrite (low_eval_uint e c m1 m2 He Hm).
    destruct (eval_uint e c m2) as [n|]; [|exact I].
    destruct (n =? 0); [apply IH, Hm | apply Hs, Hm].
Qed.

Lemma low_store slot e : low_expr e → low_stmt (ScratchVar.store slot e).
Proof.
  intros He c m1 m2 Hm. unfold ScratchVar.store. rewrite (He c m1 m2 Hm).
  destruct (e c m2) as [v|]; [|exact I].
  rewrite (proj1 (proj2 Hm)). apply machine_equiv_set_scratch, Hm.
Qed.

Lemma low_globalPut k e :
  low_expr k → low_expr e → low_stmt (App.globalPut k e).
Proof.
  intros Hk He c m1 m2 Hm. unfold App.globalPut.
  rewrite (low_eval_bytes k c m1 m2 Hk Hm), (He c m1 m2 Hm).
  destruct (eval_bytes k c m2) as [x|]; [|exact I].
  destruct (e c m2) as [v|]; [|exact I].
  apply machine_equiv_set_app; [|exact Hm].
  apply threshold_equiv_global_put, Hm.
Qed.

Lemma low_localPut a k e :
  low_expr a → low_expr k → low_expr e → low_stmt (App.localPut a k e).
Proof.
  intros Hac Hk He c m1 m2 Hm. unfold App.localPut.
  rewrite (low_eval_bytes a c m1 m2 Hac Hm), (low_eval_bytes k c m1 m2 Hk Hm),
    (He c m1 m2 Hm).
  destruct (eval_bytes a c m2) as [x|]; [|exact I].
  destruct (eval_bytes k c m2) as [y|]; [|exact I].
  destruct (e c m2) as [v|]; [|exact I].
  rewrite (threshold_equiv_opted_in (m_app m1) (m_app m2) x (proj1 Hm)).
  destruct (bool_decide (opted_in (m_app m2) x)); [|exact I].
  apply machine_equiv_set_app; [|exact Hm].
  apply threshold_equiv_local_put, Hm.
Qed.

Lemma low_balance so sv a i :
  low_expr a → low_expr i → low_stmt (mv_run (AssetHolding.balance so sv a i)).
Proof.
  intros Ha Hi c m1 m2 Hm. cbn [mv_run AssetHolding.balance].
  rewrite (low_eval_bytes a c m1 m2 Ha Hm), (low_eval_uint i c m1 m2 Hi Hm).
  destruct (eval_bytes a c m2) as [x|]; [|exact I].
  destruct (eval_uint i c m2) as [y|]; [|exact I].
  destruct (tx_assets (ctx_txn c) !! Z.to_nat y) as [id|]; [|exact I].
  cbv zeta. rewrite (proj1 (proj2 Hm)).
  rewrite (proj2 (proj2 (proj2 (proj2 Hm)))).
  apply machine_equiv_set_scratch, Hm.
Qed.

Lemma low_Begin : low_stmt InnerTxnBuilder.Begin.
Proof.
  intros c m1 m2 Hm. unfold InnerTxnBuilder.Begin.
  rewrite (proj1 (proj2 (proj2 Hm))).
  destruct (m_pending m2) eqn:E; [exact I|].
  apply machine_equiv_set_pending, Hm.
Qed.

Lemma low_set_fields l c m1 m2 i :
  Forall (λ b, low_expr b.2) l → machine_equiv m1 m2 →
  set_fields l c m1 i = set_fields l c m2 i.
Proof.
  intros Hl Hm. revert i.
  induction Hl as [|[f e] l He _ IH]; intros i; cbn [set_fields];
    [reflexivity|].
  cbn in He. rewrite (He c m1 m2 Hm).
  destruct (e c m2) as [v|]; [|reflexivity]. cbn.
  destruct (set_field f v i) as [i'|]; [|reflexivity]. cbn. apply IH.
Qed.

Lemma low_SetFields l :
  Forall (λ b, low_expr b.2) l → low_stmt (InnerTxnBuilder.SetFields l).
Proof.
  intros Hl c m1 m2 Hm. unfold InnerTxnBuilder.SetFields.
  rewrite (proj1 (proj2 (proj2 Hm))).
  destruct (m_pending m2) as [i|] eqn:E; [|exact I].
  rewrite (low_set_fields l c m1 m2 i Hl Hm).
  destruct (set_fields l c m2 i); [|exact I].
  apply machine_equiv_set_pending, Hm.
Qed.

Lemma low_Submit : low_stmt InnerTxnBuilder.Submit.
Proof.
  intros c m1 m2 (Ha & Hs & Hp & Hq & Hh). unfold InnerTxnBuilder.Submit.
  rewrite Hp, Hh. destruct (m_pending m2) eqn:E; [|exact I].
  destruct (perform _ _ _); [|exact I].
  split; [exact Ha | cbn; rewrite Hs, Hq; done].
Qed.

Lemma low_Subroutine1 slot body arg :
  low_expr arg → (∀ e, low_expr e → low_stmt (body e)) →
  low_stmt (Subroutine1 slot body arg).
Proof.
  intros Harg Hbody. unfold Subroutine1. apply low_Seq.
  repeat constructor; [apply low_store, Harg | apply Hbody, low_load].
Qed.

Ltac low_step :=
  match goal with
  | |- Forall _ (_ :: _) => apply Forall_cons
  | |- Forall _ [] => constructor
  | |- _ ∧ _ => split
  | |- low_expr (_ == _)%teal => apply low_Eq
  | |- low_expr (_ > _)%teal => apply low_Gt
  | |- low_expr (_ >= _)%teal => apply low_Ge
  | |- low_expr (_ <= _)%teal => apply low_Le
  | |- low_expr (_ + _)%teal => apply low_Add
  | |- low_expr (_ - _)%teal => apply low_Minus
  | |- low_expr (_ * _)%teal => apply low_Mul
  | |- low_expr (Btoi _) => apply low_Btoi
  | |- low_expr (And _) => apply low_And
  | |- low_expr (ScratchVar.load _) => apply low_load
  | |- low_expr (hasValue _) => apply low_load
  | |- low_expr (App.globalGet _) => apply low_globalGet; discriminate
  | |- low_expr (App.localGet _ _) => apply low_localGet
  | |- low_expr (App.optedIn _ _) => apply low_optedIn
  | |- low_expr _ => apply low_const; reflexivity
  | |- low_stmt (Seq _) => apply low_Seq
  | |- low_stmt (Cond _) => apply low_Cond
  | |- low_stmt (Assert _) => apply low_Assert
  | |- low_stmt (Return _) => apply low_Return
  | |- low_stmt Approve => apply low_Return
  | |- low_stmt Reject => apply low_Return
  | |- low_stmt Err => apply low_Err
  | |- low_stmt (ScratchVar.store _ _) => apply low_store
  | |- low_stmt (App.globalPut _ _) => apply low_globalPut
  | |- low_stmt (App.localPut _ _ _) => apply low_localPut
  | |- low_stmt (mv_run (AssetHolding.balance _ _ _ _)) => apply low_balance
  | |- low_stmt InnerTxnBuilder.Begin => apply low_Begin
  | |- low_stmt (InnerTxnBuilder.SetFields _) => apply low_SetFields
  | |- low_stmt InnerTxnBuilder.Submit => apply low_Submit
  end.

Ltac low_solve := cbn [fst snd hasValue value]; repeat (low_step; cbn [fst snd]).

Lemma low_contract_opt_in_asset_body e :
  low_expr e → low_stmt (contract_opt_in_asset_body e).
Proof.
  intros He. unfold contract_opt_in_asset_body, asset_opt_in_check.
  low_solve; exact He.
Qed.

Lemma low_contract_opt_in_asset e :
  low_expr e → low_stmt (contract_opt_in_asset e).
Proof.
  intros He. unfold contract_opt_in_asset.
  apply low_Subroutine1; [exact He | apply low_contract_opt_in_asset_body].
Qed.

Lemma low_usr_opt_in : low_stmt usr_opt_in.
Proof. unfold usr_opt_in. low_solve. Qed.

Lemma low_usr_deposit : low_stmt usr_deposit.
Proof. unfold usr_deposit. low_solve. Qed.

Lemma low_usr_withdrawal : low_stmt usr_withdrawal.
Proof. unfold usr_withdrawal. cbv zeta. low_solve. Qed.

Lemma low_handle_creation : low_stmt handle_creation.
Proof. unfold handle_creation. low_solve. Qed.

Lemma low_handle_optin : low_stmt handle_optin.
Proof.
  unfold handle_optin. low_solve.
  - apply low_contract_opt_in_asset. unfold vault_asset. low_solve.
  - apply low_usr_opt_in.
Qed.

Lemma low_handle_noop : low_stmt handle_noop.
Proof.
  unfold handle_noop. low_solve; [apply low_usr_deposit | apply low_usr_withdrawal].
Qed.

Lemma low_program : low_stmt program.
Proof.
  unfold program, handle_closeout, handle_updateapp, handle_deleteapp.
  low_solve;
    [apply low_handle_creation | apply low_handle_optin | apply low_handle_noop].
Qed.

(** The example states differ in the thresholds only. *)
Lemma vault_state_threshold_equiv max1 min1 max2 min2 accounts :
  threshold_equiv (vault_state max1 min1 accounts)
    (vault_state max2 min2 accounts).
Proof.
  split; [reflexivity|]. intros k Hmax Hmin.
  unfold vault_state. cbn [app_global].
  repeat match goal with
    | |- <[?k' := _]> _ !! k = <[?k' := _]> _ !! k =>
        destruct (decide (k' = k)) as [<-|];
        [ first [contradiction | rewrite !lookup_insert_eq; reflexivity]
        | rewrite !(lookup_insert_ne _ k') by done ]
    end.
  reflexivity.
Qed.

(** The ledger's part of a call reads and writes the local stores and,
    when it removes the application, every global key alike. *)
Lemma threshold_equiv_before_program T s1 s2 :
  threshold_equiv s1 s2 →
  match before_program T s1, before_program T s2 with
  | Some a1, Some a2 => threshold_equiv a1 a2
  | None, None => True
  | _, _ => False
  end.
Proof.
  intros He. unfold before_program.
  rewrite (threshold_equiv_opted_in s1 s2 (tx_sender T) He).
  destruct (bool_decide (application_call T)); [|exact I].
  destruct (tx_on_completion T); try exact He; try exact I.
  - destruct (bool_decide (opted_in s2 (tx_sender T))); [exact I|].
    destruct He as [Hl Hg]. split; [cbn; rewrite Hl; reflexivity | exact Hg].
  - destruct (_ || _); [exact I | exact He].
Qed.

Lemma threshold_equiv_after_program T s1 s2 :
  threshold_equiv s1 s2 →
  threshold_equiv (after_program T s1) (after_program T s2).
Proof.
  intros [Hl Hg]. unfold after_program.
  destruct (tx_on_completion T); try (split; [exact Hl | exact Hg]).
  - split; [cbn; rewrite Hl; reflexivity | exact Hg].
  - split; [exact Hl | reflexivity].
Qed.

(** C9. Two states that agree on every local store and on every global key
    other than the two thresholds get, from any transaction, the same
    decision and the same inner transactions, and the states after the call
    again agree on everything but the thresholds. A call other than the
    creation call leaves the thresholds themselves as they were. *)
Theorem thresholds_never_read G T s1 s2 :
  threshold_equiv s1 s2 →
  approved (call G T s1) = approved (call G T s2) ∧
  outbound (call G T s1) = outbound (call G T s2) ∧
  threshold_equiv (new_state (call G T s1)) (new_state (call G T s2)) ∧
  (dispatch T ≠ Some OpCreation →
   app_global (new_state (call G T s1)) = app_global s1 ∧
   app_global (new_state (call G T s2)) = app_global s2).
Proof.
  intros He.
  assert (Hg : ∀ s, dispatch T ≠ Some OpCreation →
                    app_global (new_state (call G T s)) = app_global s).
  { intros s Hd. apply call_global_frame. intros Hid.
    apply Hd, dispatch_creation, Hid. }
  assert (H : approved (call G T s1) = approved (call G T s2) ∧
              outbound (call G T s1) = outbound (call G T s2) ∧
              threshold_equiv (new_state (call G T s1))
                (new_state (call G T s2))).
  { pose proof (threshold_equiv_before_program T s1 s2 He) as Hb.
    unfold call, approval_program.
    destruct (before_program T s1) as [a1|], (before_program T s2) as [a2|];
      try contradiction.
    2: { cbn. split; [reflexivity | split; [reflexivity | exact He]]. }
    assert (Hm : machine_equiv (start G a1) (start G a2)).
    { split; [exact Hb | done]. }
    pose proof (low_program {| ctx_ledger := G; ctx_txn := T |} _ _ Hm) as Ho.
    destruct (program _ (start G a1)) as [m1|v1 m1|],
             (program _ (start G a2)) as [m2|v2 m2|];
      cbn in Ho; try contradiction; cbn [finish].
    - split; [reflexivity | split; [reflexivity | exact He]].
    - destruct Ho as [-> (Ha & _ & _ & Hq & _)].
      destruct (v2 =? 0); cbn; [|rewrite Hq];
        (split; [reflexivity | split; [reflexivity|]]);
        [exact He | apply threshold_equiv_after_program, Ha].
    - split; [reflexivity | split; [reflexivity | exact He]]. }
  destruct H as (H1 & H2 & H3).
  split; [exact H1 | split; [exact H2 | split; [exact H3|]]].
  intros Hd. split; apply Hg, Hd.
Qed.

Lemma thresholds_never_read_witness :
  let G := ledger_at 300 {[7 := 500]} in
  let T := withdrawal_txn "ALICE" bytes_500 in
  let s1 := vault_state 1000 10 {["ALICE" := account 500 100]} in
  let s2 := vault_state 5 400 {["ALICE" := account 500 100]} in
  approved (call G T s1) = approved (call G T s2) ∧
  outbound (call G T s1) = outbound (call G T s2) ∧
  threshold_equiv (new_state (call G T s1)) (new_state (call G T s2)) ∧
  (dispatch T ≠ Some OpCreation →
   app_global (new_state (call G T s1)) = app_global s1 ∧
   app_global (new_state (call G T s2)) = app_global s2).
Proof.
  cbv zeta.
  apply (thresholds_never_read (ledger_at 300 {[7 := 500]})
           (withdrawal_txn "ALICE" bytes_500)
           (vault_state 1000 10 {["ALICE" := account 500 100]})
           (vault_state 5 400 {["ALICE" := account 500 100]})).
  apply vault_state_threshold_equiv.
Defined.

(** * Further properties of the contract *)

(** ** Creation *)



(** ** Routing *)

(** X2. A call to an existing application that the dispatcher cannot route
    fails: a clear-state action; an opt-in whose first argument is missing
    or is neither of the two opt-in tags (a deposit or withdrawal tag
    included); a plain call whose first argument is missing or is neither
    of the deposit and withdrawal tags. Nothing changes and nothing is
    submitted. *)
Theorem unrouted_calls_fail G T s :
  tx_application_id T ≠ 0 →
  tx_on_completion T = ClearStateOC ∨
  (tx_on_completion T = OptInOC ∧
   tx_application_args T !! 0%nat ≠ Some "contract_opt_in_vault_asset" ∧
   tx_application_args T !! 0%nat ≠ Some "usr_opt_in") ∨
  (tx_on_completion T = NoOpOC ∧
   tx_application_args T !! 0%nat ≠ Some "usr_deposit" ∧
   tx_application_args T !! 0%nat ≠ Some "usr_withdrawal") →
  approval_program G T s = Panic ∧ call G T s = rejected s.
Proof.
  intros Hid Hcase.
  assert (Hd : dispatch T = None).
  { unfold dispatch. destruct (Z.eqb_spec (tx_application_id T) 0);
      [contradiction|].
    destruct Hcase as [-> | [(-> & H1 & H2) | (-> & H1 & H2)]];
      [reflexivity | |].
    all: destruct (tx_application_args T !! 0%nat) as [tag|];
      [|reflexivity].
    all: repeat match goal with
           | |- context [String.eqb ?a ?b] =>
               destruct (String.eqb_spec a b); [congruence|]
           end; reflexivity. }
  split; [exact (call_unrouted_panic _ _ _ Hd) | exact (call_unrouted _ _ _ Hd)].
Qed.

Lemma unrouted_calls_fail_witness :
  let G := ledger_at 300 {[7 := 500]} in
  let s := vault_state 1000 10 {["ALICE" := account 500 100]} in
  call G (call_txn "ALICE" OptInOC 2000 ["usr_withdrawal"; bytes_500]) s
  = rejected s ∧
  call G (call_txn "ALICE" NoOpOC 2000 []) s = rejected s.
Proof.
  cbv zeta. split.
  - apply (unrouted_calls_fail (ledger_at 300 {[7 := 500]})
             (call_txn "ALICE" OptInOC 2000 ["usr_withdrawal"; bytes_500])
             (vault_state 1000 10 {["ALICE" := account 500 100]}));
      [discriminate|].
    right. left. repeat split; discriminate.
  - apply (unrouted_calls_fail (ledger_at 300 {[7 := 500]})
             (call_txn "ALICE" NoOpOC 2000 [])
             (vault_state 1000 10 {["ALICE" := account 500 100]}));
      [discriminate|].
    right. right. repeat split; discriminate.
Defined.

(** ** The program returns 1 or fails *)

(** X3. The program never returns 0: it returns 1 or it fails. A call is
    approved exactly when the program returns 1 and rejected exactly when
    it fails. *)
Theorem program_approves_or_fails G T s :
  (approval_program G T s = Panic ∨
   ∃ m, approval_program G T s = Exit 1 m) ∧
  (approved (call G T s) = true ↔ ∃ m, approval_program G T s = Exit 1 m) ∧
  (approved (call G T s) = false ↔ approval_program G T s = Panic).
Proof.
  assert (H : approval_program G T s = Panic ∨
              ∃ m, approval_program G T s = Exit 1 m).
  { rewrite program_handler.
    destruct (before_program T s) as [s0|]; [|left; reflexivity].
    destruct (handler _ _ (start G s0)) as [m1|v m1|] eqn:E.
    - exfalso. eapply handler_not_Next, E.
    - right. exists m1.
      rewrite (handler_exit_one _ {| ctx_ledger := G; ctx_txn := T |}
                 (start G s0) _ _ eq_refl eq_refl E). reflexivity.
    - left. reflexivity. }
  split; [exact H|]. unfold call.
  destruct H as [-> | [m ->]]; cbn.
  - split; split; try done. intros [m [=]].
  - split; split; try done; eauto.
Qed.

(** ** Every approved call passes the sanity checks *)



(** ** What leaves the vault *)

(** X5. An approved call submits at most one inner transaction. Each is an
    asset transfer of the vault asset, sent from the vault's address, with
    fee 0, and it is submitted by the asset opt-in or by a withdrawal and by
    no other operation. *)
Theorem inner_transactions_are_vault_asset_transfers G T s i :
  approved (call G T s) = true → i ∈ outbound (call G T s) →
  outbound (call G T s) = [i] ∧
  itxn_sender i = g_current_application_address G ∧
  itxn_type_enum i = type_code axfer ∧
  itxn_fee i = 0 ∧
  global_get s "m_asset" = Uint (itxn_xfer_asset i) ∧
  (dispatch T = Some OpAssetOptIn ∨ dispatch T = Some OpWithdrawal).
Proof.
  intros Happ Hi.
  approved_cases G T s Happ; rewrite Hcall in Hi |- *; cbn [outbound] in *.
  - apply elem_of_nil in Hi. contradiction.
  - apply list_elem_of_singleton in Hi as ->.
    destruct Hpre as (_ & _ & _ & _ & _ & Hasset & _). auto 10.
  - apply list_elem_of_singleton in Hi as ->.
    destruct Hpre as (_ & _ & _ & _ & _ & _ & Hasset & _). auto 10.
Qed.

Lemma inner_transactions_are_vault_asset_transfers_witness :
  let G := ledger_at 300 {[7 := 500]} in
  let T := withdrawal_txn "ALICE" bytes_500 in
  let s := vault_state 1000 10 {["ALICE" := account 500 100]} in
  let i := withdrawal_itxn G T 500 7 in
  outbound (call G T s) = [i] ∧
  itxn_sender i = g_current_application_address G ∧
  itxn_type_enum i = type_code axfer ∧
  itxn_fee i = 0 ∧
  global_get s "m_asset" = Uint (itxn_xfer_asset i) ∧
  (dispatch T = Some OpAssetOptIn ∨ dispatch T = Some OpWithdrawal).
Proof.
  cbv zeta.
  apply (inner_transactions_are_vault_asset_transfers
           (ledger_at 300 {[7 := 500]})
           (withdrawal_txn "ALICE" bytes_500)
           (vault_state 1000 10 {["ALICE" := account 500 100]})).
  - vm_compute. reflexivity.
  - assert (E : outbound
                  (call (ledger_at 300 {[7 := 500]})
                     (withdrawal_txn "ALICE" bytes_500)
                     (vault_state 1000 10 {["ALICE" := account 500 100]}))
                = [withdrawal_itxn (ledger_at 300 {[7 := 500]})
                     (withdrawal_txn "ALICE" bytes_500) 500 7])
      by (vm_compute; reflexivity).
    rewrite E. apply list_elem_of_singleton. reflexivity.
Defined.

(** X6. Assets leave the vault only against an equal debit: an inner
    transaction that moves a positive amount goes to the sender of the
    call, moves no more than the sender's balance, and the sender's balance
    is reduced by exactly that amount. *)
Theorem payout_matches_debit G T s i :
  approved (call G T s) = true → i ∈ outbound (call G T s) →
  0 < itxn_asset_amount i →
  itxn_asset_receiver i = tx_sender T ∧
  ∃ b, depositBalance s (tx_sender T) = Some (Uint b) ∧
       itxn_asset_amount i <= b ∧
       depositBalance (new_state (call G T s)) (tx_sender T)
       = Some (Uint (b - itxn_asset_amount i)).
Proof.
  intros Happ Hi Hpos.
  approved_cases G T s Happ; rewrite Hcall in Hi |- *;
    cbn [outbound new_state] in *.
  - apply elem_of_nil in Hi. contradiction.
  - apply list_elem_of_singleton in Hi as ->. cbn in Hpos. lia.
  - apply list_elem_of_singleton in Hi as ->. cbn in *.
    destruct Hpre as (_ & _ & _ & _ & _ & _ & _ & _ & Hb & _ & Hle & _).
    split; [reflexivity|]. exists b.
    unfold depositBalance in *. rewrite local_get_put_eq. done.
Qed.

Lemma payout_matches_debit_witness :
  let G := ledger_at 300 {[7 := 500]} in
  let T := withdrawal_txn "ALICE" bytes_500 in
  let s := vault_state 1000 10 {["ALICE" := account 500 100]} in
  let i := withdrawal_itxn G T 500 7 in
  itxn_asset_receiver i = tx_sender T ∧
  ∃ b, depositBalance s (tx_sender T) = Some (Uint b) ∧
       itxn_asset_amount i <= b ∧
       depositBalance (new_state (call G T s)) (tx_sender T)
       = Some (Uint (b - itxn_asset_amount i)).
Proof.
  cbv zeta.
  apply (payout_matches_debit
           (ledger_at 300 {[7 := 500]})
           (withdrawal_txn "ALICE" bytes_500)
           (vault_state 1000 10 {["ALICE" := account 500 100]})).
  - vm_compute. reflexivity.
  - assert (E : outbound
                  (call (ledger_at 300 {[7 := 500]})
                     (withdrawal_txn "ALICE" bytes_500)
                     (vault_state 1000 10 {["ALICE" := account 500 100]}))
                = [withdrawal_itxn (ledger_at 300 {[7 := 500]})
                     (withdrawal_txn "ALICE" bytes_500) 500 7])
      by (vm_compute; reflexivity).
    rewrite E. apply list_elem_of_singleton. reflexivity.
  - reflexivity.
Defined.

(** ** What a call leaves alone *)

(** X7. A call touches no local store but the sender's: the local store of
    every other account is after the call what it was before, whatever the
    call and whether it is approved or not. *)
Theorem other_accounts_untouched G T s a :
  a ≠ tx_sender T →
  app_local (new_state (call G T s)) !! a = app_local s !! a ∧
  ∀ k, local_get (new_state (call G T s)) a k = local_get s a k.
Proof.
  intros Ha. split.
  - apply call_local_frame, Ha.
  - intros k. unfold local_get. rewrite call_local_frame by exact Ha.
    reflexivity.
Qed.

Lemma other_accounts_untouched_witness :
  let G := ledger_at 300 {[7 := 500]} in
  let T := withdrawal_txn "ALICE" bytes_500 in
  let s := vault_state 1000 10
             {["ALICE" := account 500 100; "BOB" := account 40 90]} in
  app_local (new_state (call G T s)) !! "BOB" = Some (account 40 90).
Proof.
  cbv zeta.
  rewrite (proj1 (other_accounts_untouched (ledger_at 300 {[7 := 500]})
                    (withdrawal_txn "ALICE" bytes_500)
                    (vault_state 1000 10
                       {["ALICE" := account 500 100; "BOB" := account 40 90]})
                    "BOB" ltac:(discriminate))).
  reflexivity.
Defined.

(** ** Sequences of calls *)

(** X8. After creation the global store is fixed: no sequence of calls to the
    existing application changes the creator, the city, the thresholds, the
    vault asset or the creation date. *)
Theorem globals_fixed_after_creation s tr :
  Forall (λ e : event, tx_application_id e.2 ≠ 0) tr →
  app_global (run s tr) = app_global s.
Proof.
  intros H. revert s.
  induction H as [|[G T] tr Hnz _ IH]; intros s; cbn [run]; [reflexivity|].
  rewrite IH. apply call_global_frame, Hnz.
Qed.

Lemma globals_fixed_after_creation_witness :
  let s := vault_state 1000 10 {["ALICE" := account 500 100]} in
  let tr := [ (ledger_at 200 ∅,
               call_txn "CREATOR" OptInOC 2000 ["contract_opt_in_vault_asset"]);
              (ledger_at 210 {[7 := 500]}, deposit_txn "ALICE");
              (ledger_at 220 {[7 := 500]}, withdrawal_txn "ALICE" bytes_500);
              (ledger_at 230 {[7 := 0]},
               call_txn "EVE" DeleteApplicationOC 1000 []) ] in
  app_global (run s tr) = app_global s.
Proof.
  cbv zeta. apply globals_fixed_after_creation.
  repeat constructor; discriminate.
Defined.



(** ** The keys no call writes *)

(** An invocation that is not the clear-state call of an account that is
    opted in leaves every local key of the account other than the balance
    as it was, and the account opted in. *)
Lemma invoke_local_keys a G T s :
  opted_in s a →
  ¬ (tx_on_completion T = ClearStateOC ∧ tx_sender T = a) →
  opted_in (new_state (invoke G T s)) a ∧
  ∀ k, k ≠ "balance" →
       local_get (new_state (invoke G T s)) a k = local_get s a k.
Proof.
  intros Hopt Hclear.
  assert (Hsame : ∀ s', app_local s' !! a = app_local s !! a →
            opted_in s' a ∧ ∀ k, local_get s' a k = local_get s a k).
  { intros s' E. unfold opted_in, local_get. rewrite E. done. }
  destruct (decide (tx_on_completion T = ClearStateOC)) as [Ho|Ho].
  { rewrite (invoke_clear_state _ _ _ Ho). cbn [new_state].
    destruct (Hsame {| app_global := app_global s;
                       app_local := delete (tx_sender T) (app_local s) |})
      as [H1 H2].
    - cbn. apply lookup_delete_ne. intros E. apply Hclear. done.
    - split; [exact H1 | intros k _; apply H2]. }
  rewrite (invoke_call _ _ _ Ho).
  destruct (decide (tx_sender T = a)) as [E|Hne].
  2: { destruct (Hsame (new_state (call G T s))) as [H1 H2].
       - apply call_local_frame. congruence.
       - split; [exact H1 | intros k _; apply H2]. }
  destruct (approved (call G T s)) eqn:Happ.
  2: { rewrite (call_rejected _ _ _ Happ). cbn. done. }
  destruct (dispatch T) as [[]|] eqn:Hd.
  - destruct (call_creation_approved _ _ _ Hd Happ) as (_ & Hl & _).
    destruct (call_approved _ _ _ Happ) as (s0 & _ & Hbefore & _).
    destruct (before_program_cases _ _ _ Hbefore) as [[Hoc _]|(_ & Hn & _)];
      [|rewrite E in Hn; contradiction].
    rewrite bool_decide_eq_false_2 in Hl by done.
    destruct (Hsame (new_state (call G T s))) as [H1 H2];
      [rewrite Hl; reflexivity|].
    split; [exact H1 | intros k _; apply H2].
  - destruct (call_asset_optin_approved _ _ _ Hd Happ)
      as (id & _ & Hn & _). rewrite E in Hn. contradiction.
  - rewrite (call_optin_rejected _ _ _ Hd) in Happ. discriminate.
  - rewrite (call_deposit_rejected _ _ _ Hd) in Happ. discriminate.
  - destruct (call_withdrawal_approved _ _ _ Hd Happ)
      as (w & b & id & _ & _ & _ & ->).
    cbn [new_state]. rewrite E. split.
    + apply opted_in_put, Hopt.
    + intros k Hk. apply local_get_put_key; [congruence | exact Hopt].
  - rewrite (call_unrouted _ _ _ Hd) in Happ. discriminate.
Qed.

(** X10. The balance is the only local key the contract ever writes: over
    any sequence of invocations in which an opted-in account does not clear
    its state, every other key of the account, the timestamp among them,
    keeps the value it had. No deposit being approved, the timestamp is
    never set. *)
Theorem timestamp_is_never_written a s tr :
  opted_in s a → keeps_state a tr →
  opted_in (execute s tr) a ∧
  depositTimestamp (execute s tr) a = depositTimestamp s a ∧
  ∀ k, k ≠ "balance" → local_get (execute s tr) a k = local_get s a k.
Proof.
  intros Hopt Hk.
  assert (H : opted_in (execute s tr) a ∧
              ∀ k, k ≠ "balance" →
                   local_get (execute s tr) a k = local_get s a k).
  { revert s Hopt. induction Hk as [|[G T] tr Hc _ IH]; intros s Hopt;
      cbn [execute]; [done|].
    destruct (invoke_local_keys a G T s Hopt Hc) as [Ho Hkeys].
    destruct (IH _ Ho) as [Ho' Hkeys'].
    split; [exact Ho'|]. intros k Hne. rewrite Hkeys' by exact Hne.
    apply Hkeys, Hne. }
  destruct H as [Ho Hkeys].
  split; [exact Ho | split; [|exact Hkeys]].
  apply Hkeys. discriminate.
Qed.

Lemma timestamp_is_never_written_witness :
  let s := vault_state 1000 10 {["ALICE" := account 500 100]} in
  let tr := [ (ledger_at 200 {[7 := 500]}, deposit_txn "ALICE");
              (ledger_at 210 {[7 := 500]}, withdrawal_txn "ALICE" bytes_500);
              (ledger_at 220 {[7 := 0]},
               call_txn "BOB" ClearStateOC 1000 []) ] in
  depositTimestamp (execute s tr) "ALICE" = Some (Uint 100) ∧
  depositBalance (execute s tr) "ALICE" = Some (Uint 0).
Proof.
  cbv zeta. split; [|vm_compute; reflexivity].
  refine (eq_trans
            (proj1 (proj2 (timestamp_is_never_written "ALICE"
                             (vault_state 1000 10
                                {["ALICE" := account 500 100]})
                             _ _ _)))
            eq_refl).
  - vm_compute. eauto.
  - repeat constructor; intros [H1 H2]; discriminate.
Defined.

(** ** What approval requires *)

(** [Btoi] of at most 8 bytes fits 64 bits. *)
Lemma be_value_range acc w :
  0 <= acc →
  0 <= be_value acc w < (acc + 1) * 256 ^ Z.of_nat (String.length w).
Proof.
  revert acc. induction w as [|c w IH]; intros acc Hacc;
    cbn [be_value String.length].
  - cbn. lia.
  - pose proof (Ascii.nat_ascii_bounded c) as Hc.
    specialize (IH (acc * 256 + Z.of_nat (Ascii.nat_of_ascii c)) ltac:(lia)).
    rewrite Nat2Z.inj_succ, Z.pow_succ_r by lia.
    assert (Hp : 0 < 256 ^ Z.of_nat (String.length w))
      by (apply Z.pow_pos_nonneg; lia).
    nia.
Qed.

Lemma be_value_bound w :
  (String.length w <= 8)%nat → be_value 0 w <= uint64_max.
Proof.
  intros Hlen. pose proof (be_value_range 0 w ltac:(lia)) as [_ H].
  assert (Hp : 256 ^ Z.of_nat (String.length w) <= 256 ^ 8)
    by (apply Z.pow_le_mono_r; lia).
  unfold uint64_max. change (256 ^ 8) with 18446744073709551616 in Hp. lia.
Qed.

(** X12. A withdrawal is approved only within the sender's balance: an approved
    withdrawal has exactly two arguments, of which the second decodes to an
    amount [a], references the vault asset and nothing else, and comes from
    a sender whose balance [b] satisfies [0 < a <= b]. *)
Theorem approved_withdrawal_is_within_balance G T s :
  dispatch T = Some OpWithdrawal → approved (call G T s) = true →
  ∃ a b id,
    length (tx_application_args T) = 2%nat ∧
    withdrawal_amount T = Some a ∧
    tx_assets T = [id] ∧ global_get s "m_asset" = Uint id ∧
    depositBalance s (tx_sender T) = Some (Uint b) ∧
    0 < a <= b ∧ a <= uint64_max.
Proof.
  intros Hd Happ.
  destruct (call_withdrawal_approved _ _ _ Hd Happ)
    as (a & b & id & _ & Hpre & _).
  destruct Hpre as (_ & _ & _ & _ & Hargs & Hassets & Hasset & Ha & Hb &
                    Hpos & Hle & _).
  exists a, b, id. repeat split; try done.
  unfold withdrawal_amount in Ha.
  destruct (tx_application_args T !! 1%nat) as [w|]; [|discriminate].
  cbn in Ha. unfold btoi in Ha.
  destruct (String.length w <=? 8)%nat eqn:Hlen; [|discriminate].
  injection Ha as <-. apply Nat.leb_le in Hlen.
  apply be_value_bound. exact Hlen.
Qed.

Lemma approved_withdrawal_is_within_balance_witness :
  let G := ledger_at 300 {[7 := 500]} in
  let T := withdrawal_txn "ALICE" bytes_500 in
  let s := vault_state 1000 10 {["ALICE" := account 500 100]} in
  ∃ a b id,
    length (tx_application_args T) = 2%nat ∧
    withdrawal_amount T = Some a ∧
    tx_assets T = [id] ∧ global_get s "m_asset" = Uint id ∧
    depositBalance s (tx_sender T) = Some (Uint b) ∧
    0 < a <= b ∧ a <= uint64_max.
Proof.
  cbv zeta.
  apply (approved_withdrawal_is_within_balance
           (ledger_at 300 {[7 := 500]}) (withdrawal_txn "ALICE" bytes_500)
           (vault_state 1000 10 {["ALICE" := account 500 100]}));
    [reflexivity | vm_compute; reflexivity].
Defined.

(** ** How calls compose *)







(** ** Solvency, account by account *)

(** What an invocation pays to an account is what it withdraws for it. *)
Lemma paid_is_withdrawn a G T s :
  paid_by a (outbound (invoke G T s)) = withdrawn a G T s.
Proof.
  destruct (decide (tx_on_completion T = ClearStateOC)) as [Ho|Ho].
  { rewrite (invoke_clear_state _ _ _ Ho). unfold withdrawn.
    rewrite (call_clear_state _ _ _ Ho). reflexivity. }
  rewrite (invoke_call _ _ _ Ho). unfold withdrawn.
  destruct (approved (call G T s)) eqn:Happ; cbn [andb];
    [|rewrite (call_rejected _ _ _ Happ); reflexivity].
  approved_cases G T s Happ; rewrite Hcall; cbn [outbound paid_by foldr].
  - rewrite (dispatch_creation T Hid). decide_op. reflexivity.
  - rewrite Hd. decide_op. cbn. destruct (bool_decide _); reflexivity.
  - rewrite Hd. decide_op. cbn [withdrawal_itxn itxn_asset_receiver
      itxn_asset_amount].
    destruct Hpre as (_ & _ & _ & _ & _ & _ & _ & Hw & _). rewrite Hw. cbn.
    destruct (bool_decide (tx_sender T = a)); lia.
Qed.

Lemma total_paid_is_withdrawn a tr :
  ∀ s, total_paid a s tr = total_withdrawn a s tr.
Proof.
  induction tr as [|[G T] tr IH]; intros s;
    cbn [total_paid total_withdrawn]; [reflexivity|].
  rewrite IH, paid_is_withdrawn. reflexivity.
Qed.

(** An account that is not opted in withdraws nothing, and when an
    invocation opts it in, its balance is 0. *)
Lemma invoke_not_opted_in a G T s :
  ¬ opted_in s a →
  withdrawn a G T s = 0 ∧
  (¬ opted_in (new_state (invoke G T s)) a ∨
   depositBalance (new_state (invoke G T s)) a = Some (Uint 0)).
Proof.
  intros Hn.
  assert (Hsame : ∀ s', app_local s' !! a = app_local s !! a →
                        ¬ opted_in s' a).
  { intros s' E. unfold opted_in. rewrite E. exact Hn. }
  assert (Hempty : ∀ s', app_local s' !! a = Some ∅ →
                         depositBalance s' a = Some (Uint 0)).
  { intros s' E. unfold depositBalance, local_get. rewrite E. reflexivity. }
  destruct (decide (tx_on_completion T = ClearStateOC)) as [Ho|Ho].
  { rewrite (invoke_clear_state _ _ _ Ho). unfold withdrawn.
    rewrite (call_clear_state _ _ _ Ho). split; [reflexivity|].
    left. unfold opted_in. cbn. intros [x Hx].
    apply lookup_delete_Some in Hx as [_ Hx]. apply Hn. exists x. exact Hx. }
  rewrite (invoke_call _ _ _ Ho). unfold withdrawn.
  destruct (approved (call G T s)) eqn:Happ; cbn [andb].
  2: { rewrite (call_rejected _ _ _ Happ). split; [reflexivity|].
       left. exact Hn. }
  destruct (decide (tx_sender T = a)) as [E|Hne].
  2: { rewrite (bool_decide_eq_false_2 (tx_sender T = a)) by done.
       rewrite andb_false_r. split; [reflexivity|].
       left. apply Hsame, call_local_frame. congruence. }
  rewrite (bool_decide_eq_true_2 (tx_sender T = a)) by done.
  rewrite andb_true_r.
  destruct (dispatch T) as [[]|] eqn:Hd.
  - decide_op. split; [reflexivity|].
    destruct (call_creation_approved _ _ _ Hd Happ) as (_ & Hl & _).
    case_bool_decide.
    + right. apply Hempty. rewrite Hl, E. apply lookup_insert_eq.
    + left. apply Hsame. rewrite Hl. reflexivity.
  - decide_op. split; [reflexivity|].
    destruct (call_asset_optin_approved _ _ _ Hd Happ)
      as (id & _ & _ & _ & ->).
    right. apply Hempty. cbn. rewrite E. apply lookup_insert_eq.
  - rewrite (call_optin_rejected _ _ _ Hd) in Happ. discriminate.
  - rewrite (call_deposit_rejected _ _ _ Hd) in Happ. discriminate.
  - exfalso.
    destruct (call_withdrawal_approved _ _ _ Hd Happ)
      as (w & b & id & _ & Hpre & _).
    destruct Hpre as (_ & _ & _ & _ & _ & _ & _ & _ & Hb & _).
    apply Hn. rewrite <- E. apply (opted_in_local_get _ _ "balance").
    unfold depositBalance in Hb. rewrite Hb. eauto.
  - rewrite (call_unrouted _ _ _ Hd) in Happ. discriminate.
Qed.

(** What an account can still withdraw: its balance, or nothing when it is
    not opted in. *)
Lemma withdrawals_bounded a tr :
  ∀ s b,
    0 <= b →
    depositBalance s a = Some (Uint b) ∨ ¬ opted_in s a →
    0 <= total_withdrawn a s tr <= b.
Proof.
  induction tr as [|[G T] tr IH]; intros s b Hb0 Hs;
    cbn [total_withdrawn]; [lia|].
  destruct Hs as [Hb|Hn].
  - destruct (decide (tx_on_completion T = ClearStateOC ∧ tx_sender T = a))
      as [[Ho E]|Hc].
    + assert (Hw : withdrawn a G T s = 0).
      { unfold withdrawn. rewrite (call_clear_state _ _ _ Ho). reflexivity. }
      rewrite Hw.
      assert (Hn' : ¬ opted_in (new_state (invoke G T s)) a).
      { rewrite (invoke_clear_state _ _ _ Ho). unfold opted_in. cbn.
        rewrite E, lookup_delete_eq. intros [x Hx]. discriminate. }
      specialize (IH _ 0 ltac:(lia) (or_intror Hn')). lia.
    + destruct (invoke_balance_step a G T s b Hb Hb0 Hc) as (Hstep & _ & Hw).
      rewrite deposited_zero in Hstep.
      specialize (IH _ (b + 0 - withdrawn a G T s) ltac:(lia)
                    (or_introl Hstep)). lia.
  - destruct (invoke_not_opted_in a G T s Hn) as [Hw Hs']. rewrite Hw.
    assert (H0 : depositBalance (new_state (invoke G T s)) a = Some (Uint 0)
                 ∨ ¬ opted_in (new_state (invoke G T s)) a) by tauto.
    specialize (IH _ 0 ltac:(lia) H0). lia.
Qed.



(** X16. From the empty application state nothing is ever paid out. No
    account opts in with a balance other than 0 and no deposit is
    approved, so no withdrawal is: over any sequence of invocations that
    starts with no global and no local state, creation included, every
    account's approved deposits and withdrawals sum to 0 and the inner
    transactions pay it nothing. *)
Theorem nothing_is_ever_paid_out a tr :
  total_deposited a empty_state tr = 0 ∧
  total_withdrawn a empty_state tr = 0 ∧
  total_paid a empty_state tr = 0.
Proof.
  assert (Hd : ∀ s, total_deposited a s tr = 0).
  { induction tr as [|[G T] tr IH]; intros s; cbn [total_deposited];
      [reflexivity|].
    rewrite deposited_zero, IH. reflexivity. }
  assert (Hw : total_withdrawn a empty_state tr = 0).
  { assert (Hn : ¬ opted_in empty_state a).
    { unfold opted_in, empty_state. cbn. rewrite lookup_empty.
      intros [x Hx]. discriminate. }
    pose proof (withdrawals_bounded a tr empty_state 0 ltac:(lia)
                  (or_intror Hn)). lia. }
  rewrite total_paid_is_withdrawn. auto.
Qed.
